(** * Sarvekshan-AI: the natural-language query panel and the survey builder

    A shallow embedding of the two React components of the repository,
    [NaturalLanguageQuery] (src/NaturalLanguageQuery.js) and [SurveyBuilder]
    (src/unnamed/part_003), together with models of the statistical estimator
    and of the adaptive question selector, which the repository documents
    but does not ship.

    Conventions.
    - A JavaScript string is a [string]: each [ascii] is one UTF-16 code unit
      in the range U+0000..U+00FF.  [toLowerCase] and [trim] follow
      ECMAScript on that range.
    - React state is passed explicitly: a handler is a function from the
      state it closes over to the state after its [setState] calls.
    - [Date.now()] and [Math.random()] are inputs of the handlers that read
      them. *)

From Stdlib Require Import String Ascii List ZArith QArith Lia Bool DecimalString.
From Stdlib Require DecimalZ.
From stdpp Require Import base option list strings gmap.
From Stdlib Require Import Reals Lra.

Import ListNotations.
Local Open Scope string_scope.
Local Open Scope Z_scope.

(* ===================================================================== *)
(** ** JavaScript primitives used by the components *)
(* ===================================================================== *)

Module Js.

(** Code unit of a character. *)
Definition code (c : ascii) : N := N_of_ascii c.

(** [String.prototype.toLowerCase] on one code unit of U+0000..U+00FF:
    A-Z, and the Latin-1 capitals U+00C0..U+00DE except the
    multiplication sign U+00D7, move up by 32. *)
Definition lower_char (c : ascii) : ascii :=
  let n := code c in
  if ((65 <=? n) && (n <=? 90))%N then ascii_of_N (n + 32)
  else if ((192 <=? n) && (n <=? 222) && negb (n =? 215))%N
       then ascii_of_N (n + 32)
  else c.

Fixpoint toLowerCase (s : string) : string :=
  match s with
  | EmptyString => EmptyString
  | String c t => String (lower_char c) (toLowerCase t)
  end.

(** [s.startsWith(search)]. *)
Fixpoint startsWith (s search : string) : bool :=
  match search, s with
  | EmptyString, _ => true
  | String _ _, EmptyString => false
  | String a search', String b s' =>
      if Ascii.eqb a b then startsWith s' search' else false
  end.

(** [s.includes(search)]: [search] occurs at some position of [s]. *)
Fixpoint includes (s search : string) : bool :=
  startsWith s search ||
  match s with
  | EmptyString => false
  | String _ t => includes t search
  end.

(** White space and line terminators of ECMAScript below U+0100:
    TAB, LF, VT, FF, CR, SP and NBSP. *)
Definition is_white (c : ascii) : bool :=
  let n := code c in
  (((9 <=? n) && (n <=? 13)) || (n =? 32) || (n =? 160))%N.

Fixpoint trimStart (s : string) : string :=
  match s with
  | EmptyString => EmptyString
  | String c t => if is_white c then trimStart t else s
  end.

(** [trimEnd]: a character is kept when it is not white space or when
    something is kept after it. *)
Fixpoint trimEnd (s : string) : string :=
  match s with
  | EmptyString => EmptyString
  | String c t =>
      match trimEnd t with
      | EmptyString => if is_white c then EmptyString else String c EmptyString
      | String _ _ as t' => String c t'
      end
  end.

Definition trim (s : string) : string := trimEnd (trimStart s).

(** A text is blank when every character of it is white space. *)
Fixpoint blank (s : string) : bool :=
  match s with
  | EmptyString => true
  | String c t => is_white c && blank t
  end.

(** Truthiness of a string: [!s] is true exactly for the empty string. *)
Definition falsy (s : string) : bool :=
  match s with EmptyString => true | String _ _ => false end.

(** Template-literal rendering of an integer-valued number. *)
Definition number_to_string (n : Z) : string :=
  NilEmpty.string_of_int (Z.to_int n).

(** *** [Math.random]

    A draw is a double [k / 2^53] with [0 <= k < 2^53], represented by its
    numerator [k].  The source of randomness is the hidden state of the
    runtime: the sequence of numerators that successive calls return. *)
Definition RandomSource : Type := nat -> Z.

Definition Rand (A : Type) : Type := RandomSource -> A * RandomSource.

Definition ret {A} (a : A) : Rand A := fun s => (a, s).

Definition bind {A B} (m : Rand A) (f : A -> Rand B) : Rand B :=
  fun s => let (a, s') := m s in f a s'.

Definition Math_random : Rand Z :=
  fun s => (s 0%nat, fun n => s (S n)).

(** [n / 2^s] rounded to the nearest integer, ties to even. *)
Definition round_half_even (n s : Z) : Z :=
  let q := n / 2 ^ s in
  let r := n mod 2 ^ s in
  if 2 * r <? 2 ^ s then q
  else if 2 ^ s <? 2 * r then q + 1
  else if Z.even q then q else q + 1.

(** [Math.floor(x * m)] for the draw [x = k / 2^53] and a small positive
    integer [m]: the exact product [k * m / 2^53] is rounded to a 53-bit
    significand as IEEE-754 multiplication does, then floored. *)
Definition floor_times (k m : Z) : Z :=
  let N := k * m in
  let s := Z.max 0 (Z.log2 N + 1 - 53) in
  (round_half_even N s * 2 ^ s) / 2 ^ 53.

(** [Array.from({ length: n }, (_, i) => f(i))]: the callback runs for
    [i = start, start + 1, ...] in order. *)
Fixpoint Array_from_aux {A} (n : nat) (i : Z) (f : Z -> Rand A) : Rand (list A) :=
  match n with
  | O => ret []
  | S n' => bind (f i) (fun a =>
            bind (Array_from_aux n' (i + 1) f) (fun l => ret (a :: l)))
  end.

Definition Array_from {A} (n : nat) (f : Z -> Rand A) : Rand (list A) :=
  Array_from_aux n 0 f.

(** A constant source, and a source given by its first draws. *)
Definition constant_source (k : Z) : RandomSource := fun _ => k.

Definition source_of_list (l : list Z) : RandomSource :=
  fun n => nth n l 0.

(** A search string that starts, or ends, with a character that is not
    white space. *)
Definition visible_start (search : string) : bool :=
  match search with
  | EmptyString => false
  | String c _ => negb (is_white c)
  end.

Fixpoint visible_end (search : string) : bool :=
  match search with
  | EmptyString => false
  | String c EmptyString => negb (is_white c)
  | String _ t => visible_end t
  end.

End Js.

Notation "'js_let' x ':=' m 'in' k" := (Js.bind m (fun x => k))
  (at level 10, x name, m at level 100, k at level 200, only parsing).

(* ===================================================================== *)
(** ** src/NaturalLanguageQuery.js *)
(* ===================================================================== *)

Module NaturalLanguageQuery.
Import Js.

(** Values held by the cells of a result row. *)
Inductive JsValue : Type :=
| JNum (q : Q)
| JStr (s : string).

(** A row is an object literal: its keys in insertion order. *)
Definition Row : Type := list (string * JsValue).

Record QueryResults : Type := mkResults {
  data : list Row;
  count : Z
}.

(** An entry of the query history.  [sql], [results] and [error] are
    absent until the entry completes or fails. *)
Record QueryEntry : Type := mkEntry {
  id : Z;
  query : string;
  status : string;
  timestamp : Z;
  sql : option string;
  results : option QueryResults;
  error : option string
}.

(** *** generateMockSQL (lines 101-113) *)

Definition sql_average : string :=
  "SELECT category, AVG(score) as average_score FROM survey_responses GROUP BY category".
Definition sql_count : string :=
  "SELECT COUNT(*) as total_count FROM survey_responses WHERE condition = 'value'".
Definition sql_top : string :=
  "SELECT item, COUNT(*) as frequency FROM data_table GROUP BY item ORDER BY frequency DESC LIMIT 5".
Definition sql_default : string :=
  "SELECT * FROM survey_responses WHERE relevant_condition = 'value' ORDER BY created_at DESC".

Definition generateMockSQL (query : string) : string :=
  let lowerQuery := toLowerCase query in
  if includes lowerQuery "average" || includes lowerQuery "avg" then
    sql_average
  else if includes lowerQuery "count" || includes lowerQuery "how many" then
    sql_count
  else if includes lowerQuery "top" || includes lowerQuery "most" then
    sql_top
  else
    sql_default.

(** The keywords [generateMockSQL] looks for, in the order of its tests. *)
Definition keywords : list string :=
  [ "average"; "avg"; "count"; "how many"; "top"; "most" ].

(** The three tests of lines 104, 106 and 108. *)
Definition has_average (q : string) : bool :=
  includes (toLowerCase q) "average" || includes (toLowerCase q) "avg".
Definition has_count (q : string) : bool :=
  includes (toLowerCase q) "count" || includes (toLowerCase q) "how many".
Definition has_top (q : string) : bool :=
  includes (toLowerCase q) "top" || includes (toLowerCase q) "most".

Definition example_question : string :=
  "What is the average satisfaction rating by age group?".

(** *** generateMockResults (lines 115-142) *)

Definition results_average : QueryResults :=
  {| data := [ [("category", JStr "Product"); ("average_score", JNum (42 # 10))];
               [("category", JStr "Service"); ("average_score", JNum (45 # 10))];
               [("category", JStr "Support"); ("average_score", JNum (41 # 10))] ];
     count := 3 |}.

Definition sample_row (i : Z) : Rand Row :=
  js_let r := Math_random in
  ret [ ("id", JNum (inject_Z (i + 1)));
        ("value", JStr ("Sample data " ++ number_to_string (i + 1)));
        ("score", JNum (inject_Z (floor_times r 5 + 1))) ].

Definition generateMockResults (query : string) : Rand QueryResults :=
  let lowerQuery := toLowerCase query in
  if includes lowerQuery "average" || includes lowerQuery "avg" then
    ret results_average
  else if includes lowerQuery "count" || includes lowerQuery "how many" then
    js_let r := Math_random in
    ret {| data := [ [("total_count", JNum (inject_Z (floor_times r 1000 + 100)))] ];
           count := 1 |}
  else
    js_let rows := Array_from 5 sample_row in
    ret {| data := rows; count := 5 |}.


(** *** Component state (lines 4-7)

    [st_query] is the text of the input box ([query] in the source),
    [st_queries] the query history, most recent first. *)
Record State : Type := mkState {
  st_query : string;
  st_queries : list QueryEntry;
  st_isLoading : bool;
  st_selectedQuery : option QueryEntry
}.

Definition initialState : State :=
  {| st_query := ""; st_queries := []; st_isLoading := false;
     st_selectedQuery := None |}.

(** The mount effect (lines 10-58) loads three completed entries; [now1],
    [now2] and [now3] are the clock readings of lines 28, 43 and 54. *)
Definition mockQueries (now1 now2 now3 : Z) : list QueryEntry :=
  [ {| id := 1;
       query := "Show me the average satisfaction score by age group";
       status := "completed";
       timestamp := now1 - 3600000;
       sql := Some "SELECT age_group, AVG(satisfaction_score) as avg_satisfaction FROM survey_responses GROUP BY age_group";
       results := Some
         {| data := [ [("age_group", JStr "18-25"); ("avg_satisfaction", JNum (42 # 10))];
                      [("age_group", JStr "26-35"); ("avg_satisfaction", JNum (45 # 10))];
                      [("age_group", JStr "36-45"); ("avg_satisfaction", JNum (41 # 10))];
                      [("age_group", JStr "46-55"); ("avg_satisfaction", JNum (43 # 10))];
                      [("age_group", JStr "55+"); ("avg_satisfaction", JNum (44 # 10))] ];
            count := 5 |};
       error := None |};
    {| id := 2;
       query := "What are the top 3 most common complaints?";
       status := "completed";
       timestamp := now2 - 7200000;
       sql := Some "SELECT complaint_category, COUNT(*) as frequency FROM feedback WHERE sentiment = 'negative' GROUP BY complaint_category ORDER BY frequency DESC LIMIT 3";
       results := Some
         {| data := [ [("complaint_category", JStr "Delivery Issues"); ("frequency", JNum 45)];
                      [("complaint_category", JStr "Product Quality"); ("frequency", JNum 32)];
                      [("complaint_category", JStr "Customer Service"); ("frequency", JNum 28)] ];
            count := 3 |};
       error := None |};
    {| id := 3;
       query := "How many responses were submitted last week?";
       status := "completed";
       timestamp := now3 - 10800000;
       sql := Some "SELECT COUNT(*) as total_responses FROM survey_responses WHERE created_at >= DATE_SUB(NOW(), INTERVAL 1 WEEK)";
       results := Some {| data := [ [("total_responses", JNum 247)] ]; count := 1 |};
       error := None |} ].

Definition mount (now1 now2 now3 : Z) (st : State) : State :=
  {| st_query := st_query st; st_queries := mockQueries now1 now2 now3;
     st_isLoading := st_isLoading st;
     st_selectedQuery := st_selectedQuery st |}.

(** The history as loaded at some instant. *)
Definition loaded : list QueryEntry :=
  mockQueries 1700000000000 1700000000000 1700000000001.

(** *** handleSubmit (lines 60-99)

    The handler is asynchronous.  [handleSubmit_begin] is the part that
    runs when the form is submitted, up to the [await]; it returns the
    values the rest of the handler closes over, or [None] when the
    handler returned at the guard of line 62.  [handleSubmit_resolve] is
    the part that runs after the timer, and [handleSubmit_reject] the
    [catch] branch; both end with the [finally] clause and apply their
    functional [setQueries] update to the history as it is then. *)
Record Pending : Type := mkPending {
  newQuery : QueryEntry;
  submitted : string   (* the [query] captured by the closure *)
}.

Definition handleSubmit_begin (now stamp : Z) (st : State)
  : State * option Pending :=
  if falsy (trim (st_query st)) then (st, None)
  else
    let newQuery :=
      {| id := now; query := trim (st_query st); status := "processing";
         timestamp := stamp; sql := None; results := None; error := None |} in
    ({| st_query := "";
        st_queries := newQuery :: st_queries st;
        st_isLoading := true;
        st_selectedQuery := st_selectedQuery st |},
     Some {| newQuery := newQuery; submitted := st_query st |}).

(** [{ ...q, sql: mockSQL, results: mockResults, status: "completed" }] *)
Definition completed (mockSQL : string) (mockResults : QueryResults)
           (q : QueryEntry) : QueryEntry :=
  {| id := id q; query := query q; status := "completed";
     timestamp := timestamp q; sql := Some mockSQL;
     results := Some mockResults; error := error q |}.

(** [{ ...q, status: "failed", error: "Failed to process query" }] *)
Definition failed (q : QueryEntry) : QueryEntry :=
  {| id := id q; query := query q; status := "failed";
     timestamp := timestamp q; sql := sql q; results := results q;
     error := Some "Failed to process query" |}.

(** The updater of lines 85-89. *)
Definition complete_update (new_id : Z) (mockSQL : string)
           (mockResults : QueryResults) (prev : list QueryEntry)
  : list QueryEntry :=
  map (fun q => if id q =? new_id then completed mockSQL mockResults q else q)
      prev.

(** The updater of lines 91-95. *)
Definition fail_update (new_id : Z) (prev : list QueryEntry)
  : list QueryEntry :=
  map (fun q => if id q =? new_id then failed q else q) prev.

Definition handleSubmit_resolve (p : Pending) (st : State) : Rand State :=
  let mockSQL := generateMockSQL (submitted p) in
  js_let mockResults := generateMockResults (submitted p) in
  ret {| st_query := st_query st;
         st_queries :=
           complete_update (id (newQuery p)) mockSQL mockResults (st_queries st);
         st_isLoading := false;
         st_selectedQuery := st_selectedQuery st |}.

Definition handleSubmit_reject (p : Pending) (st : State) : State :=
  {| st_query := st_query st;
     st_queries := fail_update (id (newQuery p)) (st_queries st);
     st_isLoading := false;
     st_selectedQuery := st_selectedQuery st |}.

(** A submission that nothing interleaves with. *)
Definition handleSubmit (now stamp : Z) (st : State) : Rand State :=
  match handleSubmit_begin now stamp st with
  | (st', None) => ret st'
  | (st', Some p) => handleSubmit_resolve p st'
  end.

(** *** handleKeyDown (lines 144-148) *)
Record KeyEvent : Type := mkKey {
  key : string;
  ctrlKey : bool;
  metaKey : bool
}.

Definition handleKeyDown (e : KeyEvent) (now stamp : Z) (st : State)
  : State * option Pending :=
  if String.eqb (key e) "Enter" && (ctrlKey e || metaKey e)
  then handleSubmit_begin now stamp st
  else (st, None).

(** *** formatTimestamp (lines 150-162)

    [timestamp] is the instant the ISO text of an entry denotes and [now]
    the clock reading of line 152, both in milliseconds and both time
    values of a Date, at most 8640000000000000 in absolute value.  Line
    153 subtracts and divides doubles; the integer arithmetic here agrees
    with it when [now - timestamp] is below [2^53] in absolute value:
    the difference is then exact, and the rounding of the quotient, at
    most [2^-16], cannot reach the next multiple of [1 / 60000].  Beyond
    that bound the difference is rounded and the model does not follow
    the code.  The text of [toLocaleDateString] depends on the locale and
    is an input. *)
Definition formatTimestamp (toLocaleDateString : Z -> string)
           (now timestamp : Z) : string :=
  let diffInMinutes := (now - timestamp) / (1000 * 60) in
  if diffInMinutes <? 60 then
    number_to_string diffInMinutes ++ " minutes ago"
  else if diffInMinutes <? 1440 then
    number_to_string (diffInMinutes / 60) ++ " hours ago"
  else
    toLocaleDateString timestamp.

(** *** QueryCard (lines 237-323) *)

(** getStatusColor (lines 238-249). *)
Definition getStatusColor (status : string) : string :=
  if String.eqb status "completed" then "bg-green-100 text-green-800"
  else if String.eqb status "processing" then "bg-blue-100 text-blue-800"
  else if String.eqb status "failed" then "bg-red-100 text-red-800"
  else "bg-gray-100 text-gray-800".

(** [key.replace(/_/g, ' ')] (line 294). *)
Fixpoint replace_underscores (key : string) : string :=
  match key with
  | EmptyString => EmptyString
  | String c t =>
      String (if Ascii.eqb c "_"%char then " "%char else c)
             (replace_underscores t)
  end.

(** The header cells of the results table (lines 292-296): the keys of the
    first row, when there is one. *)
Definition table_headers (r : QueryResults) : list string :=
  match data r with
  | [] => []
  | row :: _ => map (fun kv => replace_underscores (fst kv)) row
  end.

(** The body of the table (lines 300-308): one line per row, one cell per
    value of the row. *)
Definition table_cells (r : QueryResults) : list (list JsValue) :=
  map (map snd) (data r).

(** The caption of the table (line 286). *)
Definition results_caption (r : QueryResults) : string :=
  "Results (" ++ number_to_string (count r) ++ " "
  ++ (if count r =? 1 then "row" else "rows") ++ "):".

(** What a card shows besides the question: the spinner of line 269, the
    SQL block of line 274, the table of line 283 and the error box of
    line 315. *)
Definition shows_spinner (e : QueryEntry) : bool :=
  String.eqb (status e) "processing".

Definition shows_sql (e : QueryEntry) : bool :=
  match sql e with
  | Some text => negb (falsy text)
  | None => false
  end.

Definition shows_results (e : QueryEntry) : bool :=
  match results e with Some _ => true | None => false end.

Definition shows_error (e : QueryEntry) : bool :=
  match error e with
  | Some text => negb (falsy text)
  | None => false
  end.

(** An entry whose optional parts agree with its status: nothing yet
    while processing, the SQL text and the results once completed, the
    error text once failed. *)
Definition entry_ok (e : QueryEntry) : Prop :=
  (status e = "processing" /\ sql e = None /\ results e = None /\ error e = None)
  \/ (status e = "completed" /\ shows_sql e = true /\ shows_results e = true)
  \/ (status e = "failed" /\ shows_error e = true).

End NaturalLanguageQuery.

(* ===================================================================== *)
(** ** src/unnamed/part_003: the survey builder *)
(* ===================================================================== *)

Module SurveyBuilder.
Import Js.

(** An entry of the palette (lines 4-14); the icon is presentation only. *)
Record FieldType : Type := mkFieldType {
  ft_type : string;
  ft_label : string
}.

Definition FIELD_TYPES : list FieldType :=
  [ mkFieldType "text" "Text Input";
    mkFieldType "textarea" "Text Area";
    mkFieldType "number" "Number";
    mkFieldType "email" "Email";
    mkFieldType "select" "Dropdown";
    mkFieldType "radio" "Radio Buttons";
    mkFieldType "checkbox" "Checkboxes";
    mkFieldType "date" "Date";
    mkFieldType "rating" "Rating" ].

Record FieldOption : Type := mkOption {
  value : string;
  o_label : string
}.

(** [validation] starts as [{}]; each key is absent or a number. *)
Record Validation : Type := mkValidation {
  maxLength : option Z;
  v_min : option Q;
  v_max : option Q
}.

Definition no_validation : Validation :=
  {| maxLength := None; v_min := None; v_max := None |}.

(** A field; [options = None] is the source's [undefined]. *)
Record Field : Type := mkField {
  id : string;
  type : string;
  label : string;
  required : bool;
  options : option (list FieldOption);
  validation : Validation
}.

(** The [fields] array may hold [undefined] (written [None]): line 47
    splices in whatever line 46 took out, which is [undefined] when the
    source index is past the end. *)
Record State : Type := mkState {
  fields : list (option Field);
  selectedField : option Field
}.

Definition initialState : State := {| fields := []; selectedField := None |}.

Definition set_fields (newFields : list (option Field)) (st : State) : State :=
  {| fields := newFields; selectedField := selectedField st |}.

(** The test of line 33. *)
Definition has_options (t : string) : bool :=
  String.eqb t "select" || String.eqb t "radio" || String.eqb t "checkbox".

(** [arr.splice(i, 0, x)]: a start past the end is clamped to the length. *)
Definition splice_insert {A} (i : nat) (x : A) (arr : list A) : list A :=
  (take i arr ++ x :: drop i arr)%list.

(** [arr.splice(i, 1)]: the array without position [i], and the element
    taken out ([None] when [i] is past the end and the result is [[]]). *)
Definition splice_remove {A} (i : nat) (arr : list A) : list A * option A :=
  ((take i arr ++ drop (S i) arr)%list, arr !! i).

(** *** handleDragEnd (lines 20-51) *)
Record Location : Type := mkLocation {
  droppableId : string;
  index : nat
}.

Record DropResult : Type := mkDrop {
  source : Location;
  destination : option Location
}.

Definition newField (now : Z) (fieldType : FieldType) : Field :=
  {| id := "field_" ++ number_to_string now;
     type := ft_type fieldType;
     label := "New " ++ ft_label fieldType;
     required := false;
     options :=
       if has_options (ft_type fieldType)
       then Some [ {| value := "option1"; o_label := "Option 1" |} ]
       else None;
     validation := no_validation |}.

Definition handleDragEnd (now : Z) (result : DropResult) (st : State) : State :=
  match destination result with
  | None => st
  | Some dest =>
      let src := source result in
      if String.eqb (droppableId src) "field-types"
         && String.eqb (droppableId dest) "survey-fields" then
        match FIELD_TYPES !! index src with
        | None => st   (* TypeError at [fieldType.type]: nothing was set *)
        | Some fieldType =>
            set_fields
              (splice_insert (index dest) (Some (newField now fieldType))
                             (fields st)) st
        end
      else if String.eqb (droppableId src) "survey-fields"
              && String.eqb (droppableId dest) "survey-fields" then
        let (newFields, taken) := splice_remove (index src) (fields st) in
        let reorderedField := default None taken in
        set_fields (splice_insert (index dest) reorderedField newFields) st
      else st
  end.

(** *** Callbacks over an array that may hold [undefined]

    Reading [.id] of [undefined] throws a TypeError; a callback that
    throws has called no setter.  [None] stands for the throw. *)
Fixpoint js_map (f : Field -> Field) (arr : list (option Field))
  : option (list (option Field)) :=
  match arr with
  | [] => Some []
  | None :: _ => None
  | Some x :: rest =>
      match js_map f rest with
      | None => None
      | Some rest' => Some (Some (f x) :: rest')
      end
  end.

Fixpoint js_filter (p : Field -> bool) (arr : list (option Field))
  : option (list (option Field)) :=
  match arr with
  | [] => Some []
  | None :: _ => None
  | Some x :: rest =>
      match js_filter p rest with
      | None => None
      | Some rest' => Some (if p x then Some x :: rest' else rest')
      end
  end.

(** [fields.find(f => f.id === fieldId)]: [Some None] is "not found". *)
Fixpoint js_find (fieldId : string) (arr : list (option Field))
  : option (option Field) :=
  match arr with
  | [] => Some None
  | None :: _ => None
  | Some x :: rest =>
      if String.eqb (id x) fieldId then Some (Some x) else js_find fieldId rest
  end.

(** The keys an [updates] object of this component carries. *)
Record Updates : Type := mkUpdates {
  u_label : option string;
  u_required : option bool;
  u_options : option (list FieldOption);
  u_validation : option Validation
}.

Definition no_updates : Updates :=
  {| u_label := None; u_required := None; u_options := None;
     u_validation := None |}.

(** [{ ...field, ...updates }] *)
Definition spread (field : Field) (updates : Updates) : Field :=
  {| id := id field;
     type := type field;
     label := default (label field) (u_label updates);
     required := default (required field) (u_required updates);
     options := match u_options updates with
                | Some l => Some l
                | None => options field
                end;
     validation := default (validation field) (u_validation updates) |}.

(** *** updateField (lines 53-59) *)
Definition updateField (fieldId : string) (updates : Updates) (st : State)
  : State :=
  match js_map (fun field =>
                  if String.eqb (id field) fieldId then spread field updates
                  else field) (fields st) with
  | None => st
  | Some newFields => set_fields newFields st
  end.

(** *** deleteField (lines 61-68) *)
Definition deleteField (fieldId : string) (st : State) : State :=
  match js_filter (fun field => negb (String.eqb (id field) fieldId))
                  (fields st) with
  | None => st
  | Some newFields =>
      {| fields := newFields;
         selectedField :=
           match selectedField st with
           | Some sel => if String.eqb (id sel) fieldId then None else Some sel
           | None => None
           end |}
  end.

(** *** addOption (lines 70-81) *)
Definition addOption (fieldId : string) (st : State) : State :=
  match js_find fieldId (fields st) with
  | Some (Some field) =>
      match options field with
      | Some opts =>
          let n := number_to_string (Z.of_nat (length opts) + 1) in
          let newOption := {| value := "option" ++ n;
                              o_label := "Option " ++ n |} in
          updateField fieldId
            {| u_label := None; u_required := None;
               u_options := Some (opts ++ [newOption])%list;
               u_validation := None |} st
      | None => st
      end
  | _ => st
  end.

(** *** updateOption (lines 83-91) *)
Record OptionUpdates : Type := mkOptionUpdates {
  ou_value : option string;
  ou_label : option string
}.

Definition spread_option (o : FieldOption) (updates : OptionUpdates)
  : FieldOption :=
  {| value := default (value o) (ou_value updates);
     o_label := default (o_label o) (ou_label updates) |}.

Definition updateOption (fieldId : string) (optionIndex : nat)
           (updates : OptionUpdates) (st : State) : State :=
  match js_find fieldId (fields st) with
  | Some (Some field) =>
      match options field with
      | Some opts =>
          let newOptions :=
            imap (fun index option =>
                    if Nat.eqb index optionIndex
                    then spread_option option updates else option) opts in
          updateField fieldId
            {| u_label := None; u_required := None;
               u_options := Some newOptions; u_validation := None |} st
      | None => st
      end
  | _ => st
  end.

(** [opts.filter((_, index) => index !== optionIndex)] *)
Fixpoint filter_index {A} (optionIndex : nat) (start : nat) (opts : list A)
  : list A :=
  match opts with
  | [] => []
  | o :: rest =>
      if Nat.eqb start optionIndex
      then filter_index optionIndex (S start) rest
      else o :: filter_index optionIndex (S start) rest
  end.

(** *** removeOption (lines 93-99) *)
Definition removeOption (fieldId : string) (optionIndex : nat) (st : State)
  : State :=
  match js_find fieldId (fields st) with
  | Some (Some field) =>
      match options field with
      | Some opts =>
          if (1 <? length opts)%nat then
            updateField fieldId
              {| u_label := None; u_required := None;
                 u_options := Some (filter_index optionIndex 0 opts);
                 u_validation := None |} st
          else st
      | None => st
      end
  | _ => st
  end.

(** *** The callbacks wired in the JSX (lines 166-215 and 287-393)

    Every handler above also hands its new array to [onSurveyChange]; the
    parent's copy is the same list and is not tracked separately.  The
    properties panel works on [selectedField], the snapshot taken when
    the card was clicked, and is rendered only while a field is
    selected. *)

(** [text.replace(/\s+/g, '_')] *)
Fixpoint replace_white (in_run : bool) (s : string) : string :=
  match s with
  | EmptyString => EmptyString
  | String c t =>
      if is_white c then
        if in_run then replace_white true t
        else String "_"%char (replace_white true t)
      else String c (replace_white false t)
  end.

Inductive Event : Type :=
| DragEnd (now : Z) (result : DropResult)      (* line 102 *)
| ClickCard (i : nat)                          (* line 175 *)
| ClickDelete (i : nat)                        (* lines 182-185 *)
| ChangeLabel (text : string)                  (* line 295 *)
| ChangeRequired (checked : bool)              (* line 305 *)
| ChangeOptionLabel (i : nat) (text : string)  (* line 320 *)
| ClickRemoveOption (i : nat)                  (* line 325 *)
| ClickAddOption                               (* line 334 *)
| ChangeMaxLength (parsed : option Z)          (* lines 348-353 *)
| ChangeMin (parsed : option Q)                (* lines 366-371 *)
| ChangeMax (parsed : option Q).               (* lines 380-385 *)

Definition with_label (text : string) : Updates :=
  {| u_label := Some text; u_required := None; u_options := None;
     u_validation := None |}.

Definition with_required (checked : bool) : Updates :=
  {| u_label := None; u_required := Some checked; u_options := None;
     u_validation := None |}.

Definition with_validation (v : Validation) : Updates :=
  {| u_label := None; u_required := None; u_options := None;
     u_validation := Some v |}.

(** The card or control exists only for what the last render showed;
    an event on something that is not rendered cannot happen and leaves
    the state as it is. *)
Definition step (st : State) (ev : Event) : State :=
  match ev with
  | DragEnd now result => handleDragEnd now result st
  | ClickCard i =>
      match fields st !! i with
      | Some (Some field) =>
          {| fields := fields st; selectedField := Some field |}
      | _ => st
      end
  | ClickDelete i =>
      match fields st !! i with
      | Some (Some field) => deleteField (id field) st
      | _ => st
      end
  | ChangeLabel text =>
      match selectedField st with
      | Some field => updateField (id field) (with_label text) st
      | None => st
      end
  | ChangeRequired checked =>
      match selectedField st with
      | Some field => updateField (id field) (with_required checked) st
      | None => st
      end
  | ChangeOptionLabel i text =>
      match selectedField st with
      | Some field =>
          if has_options (type field) then
            match options field with
            | Some shown =>
                if (i <? length shown)%nat then
                  updateOption (id field) i
                    {| ou_value :=
                         Some (replace_white false (toLowerCase text));
                       ou_label := Some text |} st
                else st
            | None => st
            end
          else st
      | None => st
      end
  | ClickRemoveOption i =>
      match selectedField st with
      | Some field =>
          if has_options (type field) then
            match options field with
            | Some shown =>
                if ((i <? length shown) && (1 <? length shown))%nat
                then removeOption (id field) i st
                else st
            | None => st
            end
          else st
      | None => st
      end
  | ClickAddOption =>
      match selectedField st with
      | Some field =>
          if has_options (type field) then addOption (id field) st else st
      | None => st
      end
  | ChangeMaxLength parsed =>
      match selectedField st with
      | Some field =>
          if String.eqb (type field) "text" then
            updateField (id field)
              (with_validation
                 {| maxLength := parsed;
                    v_min := v_min (validation field);
                    v_max := v_max (validation field) |}) st
          else st
      | None => st
      end
  | ChangeMin parsed =>
      match selectedField st with
      | Some field =>
          if String.eqb (type field) "number" then
            updateField (id field)
              (with_validation
                 {| maxLength := maxLength (validation field);
                    v_min := parsed;
                    v_max := v_max (validation field) |}) st
          else st
      | None => st
      end
  | ChangeMax parsed =>
      match selectedField st with
      | Some field =>
          if String.eqb (type field) "number" then
            updateField (id field)
              (with_validation
                 {| maxLength := maxLength (validation field);
                    v_min := v_min (validation field);
                    v_max := parsed |}) st
          else st
      | None => st
      end
  end.

Definition run (st : State) (evs : list Event) : State :=
  fold_left step evs st.

(** *** The option-count invariant

    [field_ok]: a field of an option-bearing type has an option list, and
    an option list that is present is not empty. *)
Definition field_ok (f : Field) : Prop :=
  (has_options (type f) = true -> options f <> None) /\
  options f <> Some [].

Definition slot_ok (slot : option Field) : Prop :=
  match slot with
  | Some f => field_ok f
  | None => True
  end.

Definition fields_ok (st : State) : Prop := Forall slot_ok (fields st).

(** In words: every field of type select, radio or checkbox
    has at least one option. *)
Definition at_least_one_option (st : State) : Prop :=
  forall f, In (Some f) (fields st) ->
    type f = "select" \/ type f = "radio" \/ type f = "checkbox" ->
    exists opts, options f = Some opts /\ (1 <= length opts)%nat.

(** A session: a dropdown is dragged into the empty builder and selected;
    it is given a second option and selected again; then the remove button
    of its first option is clicked twice, the second time on the panel's
    stale snapshot, which still shows two options. *)
Definition session : list Event :=
  [ DragEnd 1700000000000
      {| source := {| droppableId := "field-types"; index := 4 |};
         destination := Some {| droppableId := "survey-fields"; index := 0 |} |};
    ClickCard 0;
    ClickAddOption;
    ClickCard 0;
    ClickRemoveOption 0;
    ClickRemoveOption 0 ].

(** *** FieldPreview (lines 220-285)

    What [renderField] puts under the label of a field: the control of
    its type, with the options a control lists ([field.options?.map]
    lists nothing when the options are absent), or the notice of the
    default case. *)
Inductive Preview : Type :=
| TextInput
| TextArea
| NumberInput
| EmailInput
| DateInput
| Dropdown (choices : list FieldOption)
| RadioButtons (name : string) (choices : list FieldOption)
| Checkboxes (choices : list FieldOption)
| Stars (stars : list Z)
| UnknownFieldType.

Definition renderField (field : Field) : Preview :=
  let listed := default [] (options field) in
  if String.eqb (type field) "text" then TextInput
  else if String.eqb (type field) "textarea" then TextArea
  else if String.eqb (type field) "number" then NumberInput
  else if String.eqb (type field) "email" then EmailInput
  else if String.eqb (type field) "date" then DateInput
  else if String.eqb (type field) "select" then Dropdown listed
  else if String.eqb (type field) "radio" then RadioButtons (id field) listed
  else if String.eqb (type field) "checkbox" then Checkboxes listed
  else if String.eqb (type field) "rating" then Stars [1; 2; 3; 4; 5]
  else UnknownFieldType.

(** The choices a preview lists, for the previews that list any. *)
Definition choices_of (p : Preview) : option (list FieldOption) :=
  match p with
  | Dropdown l | RadioButtons _ l | Checkboxes l => Some l
  | _ => None
  end.

(** *** Reading a state *)

(** The ids of the fields, in order. *)
Definition field_ids (st : State) : list string :=
  omap (fun slot => id <$> slot) (fields st).

(** No slot of the array is [undefined]. *)
Definition all_defined (st : State) : Prop :=
  Forall (fun slot : option Field => slot <> None) (fields st).

(** The clock readings of the drops from the palette in a sequence of
    events. *)
Definition drop_time (ev : Event) : option Z :=
  match ev with
  | DragEnd now result =>
      if String.eqb (droppableId (source result)) "field-types"
      then Some now else None
  | _ => None
  end.

Definition drop_times (evs : list Event) : list Z := omap drop_time evs.

(** The types of the palette. *)
Definition palette_types : list string := map ft_type FIELD_TYPES.

(** A drop from the palette, and a move within the survey. *)
Definition palette_drop (i j : nat) : DropResult :=
  {| source := {| droppableId := "field-types"; index := i |};
     destination := Some {| droppableId := "survey-fields"; index := j |} |}.

Definition survey_move (i j : nat) : DropResult :=
  {| source := {| droppableId := "survey-fields"; index := i |};
     destination := Some {| droppableId := "survey-fields"; index := j |} |}.

(** Every field in the array has a type of the palette. *)
Definition slot_typed (slot : option Field) : Prop :=
  match slot with
  | Some f => In (type f) palette_types
  | None => True
  end.

Definition fields_typed (st : State) : Prop := Forall slot_typed (fields st).

(** The builder after the first three events of [session]: one dropdown
    with two options, selected while it had one. *)
Definition two_options : State := run initialState (take 3 session).

(** The id line 29 gives to a field created at clock reading [now]. *)
Definition id_at (now : Z) : string := "field_" ++ number_to_string now.

End SurveyBuilder.

(* ===================================================================== *)
(** ** The statistical estimator (spec section 4.4) *)
(* ===================================================================== *)

Module Estimator.
Local Open Scope R_scope.

(** Numbers as the estimator computes with them: a finite value, an
    infinity or NaN.  A finite value is a real number, so rounding and the
    sign of zero are left out; the special values, and the operations that
    give them, follow IEEE 754: [0 / 0], [inf - inf], [0 * inf],
    [inf / inf] and the square root of a negative number are NaN, and NaN
    is absorbing. *)
Inductive Number : Type :=
| Finite (x : R)
| Infinite (negative : bool)
| NaN.

Definition zero_real (x : R) : bool :=
  if Req_dec_T x 0 then true else false.

Definition negative_real (x : R) : bool :=
  if Rlt_dec x 0 then true else false.

Definition opp (a : Number) : Number :=
  match a with
  | Finite x => Finite (- x)
  | Infinite s => Infinite (negb s)
  | NaN => NaN
  end.

Definition add (a b : Number) : Number :=
  match a, b with
  | NaN, _ | _, NaN => NaN
  | Finite x, Finite y => Finite (x + y)
  | Infinite s, Finite _ | Finite _, Infinite s => Infinite s
  | Infinite s, Infinite t => if Bool.eqb s t then Infinite s else NaN
  end.

Definition sub (a b : Number) : Number := add a (opp b).

Definition mul (a b : Number) : Number :=
  match a, b with
  | NaN, _ | _, NaN => NaN
  | Finite x, Finite y => Finite (x * y)
  | Infinite s, Finite y | Finite y, Infinite s =>
      if zero_real y then NaN else Infinite (xorb s (negative_real y))
  | Infinite s, Infinite t => Infinite (xorb s t)
  end.

Definition div (a b : Number) : Number :=
  match a, b with
  | NaN, _ | _, NaN => NaN
  | Finite x, Finite y =>
      if zero_real y
      then if zero_real x then NaN else Infinite (negative_real x)
      else Finite (x / y)
  | Finite _, Infinite _ => Finite 0
  | Infinite s, Finite y => Infinite (xorb s (negative_real y))
  | Infinite _, Infinite _ => NaN
  end.

Definition square_root (a : Number) : Number :=
  match a with
  | Finite x => if negative_real x then NaN else Finite (sqrt x)
  | Infinite false => Infinite false
  | Infinite true => NaN
  | NaN => NaN
  end.

Definition is_zero (a : Number) : bool :=
  match a with
  | Finite x => zero_real x
  | _ => false
  end.

(** A value stored in a response. *)
Inductive Value : Type :=
| VNum (x : R)
| VStr (s : string).

Record Response : Type := mkResponse {
  id : Z;
  surveyId : Z;
  data : gmap string Value;
  isComplete : bool;
  completionTimeSeconds : Z;
  createdAt : Z
}.

Inductive Method : Type := none | stratified.

Record SamplingDesign : Type := mkDesign {
  method : Method;
  stratifyBy : option string;
  populationProportions : option (gmap string R)
}.

Record EstimationResult : Type := mkEstimate {
  mean : Number;
  confidenceInterval : Number * Number;
  standardError : Number;
  sampleSize : nat;
  effectiveSampleSize : option Number;
  designEffect : option Number
}.

Inductive EstimateError : Type :=
| InsufficientDataError
| InvalidDesignError.

(** Tolerance on the sum of the population proportions. *)
Definition tolerance : R := / 1000000.

Definition proportions_total (strata : list (string * R)) : R :=
  foldr Rplus 0 (map snd strata).

Definition sum (l : list Number) : Number := foldr add (Finite 0) l.

Definition count (l : list Number) : Number := Finite (INR (length l)).

Definition average (l : list Number) : Number := div (sum l) (count l).

Definition squared_deviations (l : list Number) : list Number :=
  map (fun x => mul (sub x (average l)) (sub x (average l))) l.

(** The sample variance by its formula, with [n - 1] in the denominator:
    on one observation it is [0 / 0]. *)
Definition sample_variance (l : list Number) : Number :=
  div (sum (squared_deviations l)) (sub (count l) (Finite 1)).

(** Step 4 of the algorithm: the variance of a sample of one observation
    is treated as 0; any other sample has its sample variance. *)
Definition variance (l : list Number) : Number :=
  if (length l =? 1)%nat then Finite 0 else sample_variance l.

(** The standard error with step 4 left out: the formula of the sample
    variance on every sample. *)
Definition standard_error_by_formula (xs : list Number) : Number :=
  div (square_root (sample_variance xs)) (square_root (count xs)).

Section Estimate.
(** The ordinal-to-numeric scale of categorical answers and the z-score
    of the requested confidence level are configuration. *)
Variable scale : string -> option R.
Variable z : R.

(** Step 1: numeric coercion. *)
Definition coerce (v : Value) : option Number :=
  match v with
  | VNum x => Some (Finite x)
  | VStr s => Finite <$> scale s
  end.

(** The responses that count: those whose target value coerces. *)
Definition usable (targetField : string) (responses : list Response)
  : list (Response * Number) :=
  omap (fun r => match data r !! targetField with
                 | Some v => match coerce v with
                             | Some x => Some (r, x)
                             | None => None
                             end
                 | None => None
                 end) responses.

Definition interval (m se : Number) : Number * Number :=
  (sub m (mul (Finite z) se), add m (mul (Finite z) se)).

(** Step 2: no design. *)
Definition estimate_simple (xs : list Number)
  : EstimateError + EstimationResult :=
  match xs with
  | [] => inl InsufficientDataError
  | _ =>
      let m := average xs in
      let se := div (square_root (variance xs)) (square_root (count xs)) in
      inr {| mean := m; confidenceInterval := interval m se;
             standardError := se; sampleSize := length xs;
             effectiveSampleSize := None; designEffect := None |}
  end.

(** The stratum of a usable response: the text stored under the
    stratification field. *)
Definition stratum_of (by_field : string) (r : Response) : option string :=
  match data r !! by_field with
  | Some (VStr s) => Some s
  | _ => None
  end.

Fixpoint labelled (by_field : string) (obs : list (Response * Number))
  : option (list (string * Number)) :=
  match obs with
  | [] => Some []
  | (r, x) :: rest =>
      match stratum_of by_field r, labelled by_field rest with
      | Some s, Some rest' => Some ((s, x) :: rest')
      | _, _ => None
      end
  end.

Definition in_stratum (s : string) (obs : list (string * Number))
  : list Number :=
  omap (fun sx => if String.eqb (fst sx) s then Some (snd sx) else None) obs.

(** What one stratum contributes: its sample share [n_s / totalN], its
    post-stratification weight [w_s], its mean and its variance. *)
Record StratumSummary : Type := mkStratum {
  share : Number;
  weight : Number;
  stratum_mean : Number;
  stratum_variance : Number;
  stratum_size : nat
}.

Definition summarise (totalN : nat) (p : R) (xs : list Number)
  : StratumSummary :=
  let f := div (count xs) (Finite (INR totalN)) in
  {| share := f; weight := div (Finite p) f; stratum_mean := average xs;
     stratum_variance := variance xs; stratum_size := length xs |}.

Fixpoint summaries (totalN : nat) (obs : list (string * Number))
         (strata : list (string * R))
  : option (list StratumSummary) :=
  match strata with
  | [] => Some []
  | (s, p) :: rest =>
      match in_stratum s obs, summaries totalN obs rest with
      | [], _ => None
      | _, None => None
      | xs, Some rest' => Some (summarise totalN p xs :: rest')
      end
  end.

Definition declared (strata : list (string * R))
           (obs : list (string * Number)) : bool :=
  forallb (fun sx => existsb (fun sp => String.eqb (fst sp) (fst sx)) strata)
          obs.

(** The normalised weight of a stratum: [w_s * (n_s / totalN)] over the
    sum of these products. *)
Definition normalised (total : Number) (s : StratumSummary) : Number :=
  div (mul (weight s) (share s)) total.

(** Step 3: stratified design. *)
Definition estimate_stratified (by_field : string) (proportions : gmap string R)
           (obs : list (Response * Number))
  : EstimateError + EstimationResult :=
  let strata := map_to_list proportions in
  if Rle_dec (Rabs (proportions_total strata - 1)) tolerance then
    match obs with
    | [] => inl InsufficientDataError
    | _ =>
        match labelled by_field obs with
        | None => inl InvalidDesignError
        | Some lobs =>
            if declared strata lobs then
              let totalN := length obs in
              match summaries totalN lobs strata with
              | None => inl InsufficientDataError
              | Some ss =>
                  let total := sum (map (fun s => mul (weight s) (share s)) ss) in
                  let m := div (sum (map (fun s =>
                                  mul (mul (weight s) (stratum_mean s)) (share s)) ss))
                               total in
                  let v := sum (map (fun s =>
                             div (mul (mul (normalised total s) (normalised total s))
                                      (stratum_variance s))
                                 (Finite (INR (stratum_size s)))) ss) in
                  let se := square_root v in
                  let srs := div (variance (map snd obs)) (Finite (INR totalN)) in
                  let deff := if is_zero srs then None else Some (div v srs) in
                  inr {| mean := m; confidenceInterval := interval m se;
                         standardError := se; sampleSize := totalN;
                         effectiveSampleSize :=
                           match deff with
                           | Some d => if is_zero d then None
                                       else Some (div (Finite (INR totalN)) d)
                           | None => None
                           end;
                         designEffect := deff |}
              end
            else inl InvalidDesignError
        end
    end
  else inl InvalidDesignError.

(** Modelled from the spec: the estimator of section 4.4, of which the
    repository holds no code.  [estimate] coerces the target values,
    then follows the design: the plain mean with the standard error
    [sd / sqrt n], or the post-stratified mean with the design-based
    variance.  Its arithmetic is that of [Number], where the sample
    variance of one observation is NaN by its formula and 0 by the
    policy of step 4 ([variance]).  It fails with
    [InsufficientDataError] on an empty sample or an empty declared
    stratum, and with [InvalidDesignError] when the proportions do not
    sum to 1 within [tolerance], when the design names no stratification
    field or no proportions, when a response has no stratum under that
    field, or when its stratum has no declared proportion. *)
Definition estimate (responses : list Response) (targetField : string)
           (design : SamplingDesign) : EstimateError + EstimationResult :=
  let obs := usable targetField responses in
  match method design with
  | none => estimate_simple (map snd obs)
  | stratified =>
      match stratifyBy design, populationProportions design with
      | Some by_field, Some proportions =>
          estimate_stratified by_field proportions obs
      | _, _ => inl InvalidDesignError
      end
  end.

End Estimate.

(** The input of the single-respondent case: no design, or a stratified
    design that declares one stratum, the respondent's, with a proportion
    within [tolerance] of 1. *)
Definition single_stratum (r : Response) (design : SamplingDesign) : Prop :=
  method design = none \/
  (method design = stratified /\
   exists by_field s p,
     stratifyBy design = Some by_field /\
     populationProportions design = Some {[ s := p ]} /\
     stratum_of by_field r = Some s /\
     Rabs (p - 1) <= tolerance).

(** One respondent of the stratum 18-25, and the design that declares that
    stratum alone. *)
Definition lone_response : Response :=
  {| id := 1; surveyId := 1;
     data := {[ "satisfaction" := VNum 4; "age_group" := VStr "18-25" ]};
     isComplete := true; completionTimeSeconds := 95;
     createdAt := 1700000000000 |}.

Definition lone_design : SamplingDesign :=
  {| method := stratified; stratifyBy := Some "age_group";
     populationProportions := Some {[ "18-25" := 1 ]} |}.

Definition no_scale : string -> option R := fun _ => None.

End Estimator.

(* ===================================================================== *)
(** ** The adaptive question selector (spec section 4.5) *)
(* ===================================================================== *)

Module AdaptiveSelector.

Inductive Answer : Type :=
| ANum (q : Z)
| AText (s : string).

(** One logged response: the field answered and the answer given. *)
Definition Response : Type := (string * Answer)%type.

(** Branching predicates as a tagged variant (spec section 9). *)
Inductive Predicate : Type :=
| threshold (field : string) (at_most : Z)
| equals (field : string) (expected : Answer)
| rangeIn (field : string) (low high : Z).

Record Rule : Type := mkRule {
  predicate : Predicate;
  target : string
}.

Record Node : Type := mkNode {
  fieldId : string;
  rules : list Rule
}.

(** The Field graph: the fields in the survey's static order, each with
    its outgoing rules in declaration order. *)
Definition FieldGraph : Type := list Node.

Inductive Reasoning : Type :=
| RuleMatched (position : nat)
| LinearOrder
| NoFurtherField.

Record AdaptiveDecision : Type := mkDecision {
  nextFieldId : option string;
  reasoning : Reasoning;
  surveyComplete : bool
}.

Definition answer_eqb (a b : Answer) : bool :=
  match a, b with
  | ANum x, ANum y => x =? y
  | AText s, AText t => String.eqb s t
  | _, _ => false
  end.

(** The answer on record for a field: the latest one in the log. *)
Fixpoint answer_of (field : string) (responses : list Response)
  : option Answer :=
  match responses with
  | [] => None
  | (f, a) :: rest =>
      match answer_of field rest with
      | Some later => Some later
      | None => if String.eqb f field then Some a else None
      end
  end.

(** The single interpreter of predicates. *)
Definition holds (p : Predicate) (responses : list Response) : bool :=
  match p with
  | threshold field at_most =>
      match answer_of field responses with
      | Some (ANum x) => x <=? at_most
      | _ => false
      end
  | equals field expected =>
      match answer_of field responses with
      | Some a => answer_eqb a expected
      | None => false
      end
  | rangeIn field low high =>
      match answer_of field responses with
      | Some (ANum x) => (low <=? x) && (x <=? high)
      | _ => false
      end
  end.

(** The first rule, in declaration order, whose predicate matches. *)
Fixpoint first_match (position : nat) (rs : list Rule)
         (responses : list Response) : option (nat * string) :=
  match rs with
  | [] => None
  | r :: rest =>
      if holds (predicate r) responses then Some (position, target r)
      else first_match (S position) rest responses
  end.

Fixpoint node_of (current : string) (graph : FieldGraph) : option Node :=
  match graph with
  | [] => None
  | n :: rest =>
      if String.eqb (fieldId n) current then Some n else node_of current rest
  end.

(** The field that follows [current] in the static order. *)
Fixpoint successor (current : string) (graph : FieldGraph) : option string :=
  match graph with
  | [] => None
  | n :: rest =>
      if String.eqb (fieldId n) current then
        match rest with
        | m :: _ => Some (fieldId m)
        | [] => None
        end
      else successor current rest
  end.

Definition terminal : AdaptiveDecision :=
  {| nextFieldId := None; reasoning := NoFurtherField;
     surveyComplete := true |}.

(** Modelled from the spec: the selector of section 4.5, of which the
    repository holds no code.  The rules of the current field are tried
    in declaration order and the first match gives the next field;
    without a match the static order gives it; when that is exhausted
    the decision is terminal. *)
Definition select (graph : FieldGraph) (current : string)
           (responses : list Response) : AdaptiveDecision :=
  let outgoing := match node_of current graph with
                  | Some n => rules n
                  | None => []
                  end in
  match first_match 0 outgoing responses with
  | Some (position, next) =>
      {| nextFieldId := Some next; reasoning := RuleMatched position;
         surveyComplete := false |}
  | None =>
      match successor current graph with
      | Some next =>
          {| nextFieldId := Some next; reasoning := LinearOrder;
             surveyComplete := false |}
      | None => terminal
      end
  end.

(** A rule that does not match. *)
Definition fails (responses : list Response) (r : Rule) : Prop :=
  holds (predicate r) responses = false.

(** Modelled from the spec: the transition of section 4.5 as a relation,
    read off its sentences one by one. *)
Inductive Selects (graph : FieldGraph) (current : string)
          (responses : list Response) : AdaptiveDecision -> Prop :=
| by_rule (n : Node) (before : list Rule) (r : Rule) (after : list Rule) :
    node_of current graph = Some n ->
    rules n = (before ++ r :: after)%list ->
    Forall (fails responses) before ->
    holds (predicate r) responses = true ->
    Selects graph current responses
      {| nextFieldId := Some (target r);
         reasoning := RuleMatched (length before);
         surveyComplete := false |}
| by_order (next : string) :
    (forall n, node_of current graph = Some n ->
       Forall (fails responses) (rules n)) ->
    successor current graph = Some next ->
    Selects graph current responses
      {| nextFieldId := Some next; reasoning := LinearOrder;
         surveyComplete := false |}
| at_end :
    (forall n, node_of current graph = Some n ->
       Forall (fails responses) (rules n)) ->
    successor current graph = None ->
    Selects graph current responses terminal.

(** Replaying a response log: the machine starts at the survey's first
    field; each logged response is added to the accumulated responses and
    the selector is asked for the next field.  The result is the sequence
    of decisions, one per response.  [position] is the state of the
    machine: the current field, or [None] once terminal. *)
Fixpoint replay_from (graph : FieldGraph) (position : option string)
         (seen : list Response) (log : list Response)
  : list AdaptiveDecision :=
  match log with
  | [] => []
  | r :: rest =>
      match position with
      | None => terminal :: replay_from graph None (seen ++ [r]) rest
      | Some current =>
          let d := select graph current (seen ++ [r]) in
          d :: replay_from graph (nextFieldId d) (seen ++ [r]) rest
      end
  end.

Definition first_field (graph : FieldGraph) : option string :=
  match graph with
  | [] => None
  | n :: _ => Some (fieldId n)
  end.

Definition replay (graph : FieldGraph) (log : list Response)
  : list AdaptiveDecision :=
  replay_from graph (first_field graph) [] log.

(** A three-field survey: a low satisfaction rating branches to the
    follow-up question, which is also the last one in the static order. *)
Definition example_graph : FieldGraph :=
  [ {| fieldId := "satisfaction";
       rules := [ {| predicate := equals "satisfaction" (AText "n/a");
                     target := "age_group" |};
                  {| predicate := threshold "satisfaction" 2;
                     target := "follow_up" |} ] |};
    {| fieldId := "age_group"; rules := [] |};
    {| fieldId := "follow_up"; rules := [] |} ].

Definition example_log : list Response :=
  [ ("satisfaction", ANum 2); ("follow_up", AText "slow delivery") ].

End AdaptiveSelector.

(* ===================================================================== *)
(** ** Reading a rendered query text *)
(* ===================================================================== *)

Module SqlText.
Import Js.

(** Letters, digits and the underscore make up words. *)
Definition is_word_char (c : ascii) : bool :=
  let n := code c in
  (((48 <=? n) && (n <=? 57)) || ((65 <=? n) && (n <=? 90))
   || ((97 <=? n) && (n <=? 122)) || (n =? 95))%N.

(** The words of a text: its maximal runs of word characters.  [cur] is
    the word being read, reversed. *)
Fixpoint words_aux (cur : list ascii) (s : string) : list string :=
  let flush := match cur with
               | [] => []
               | _ => [string_of_list_ascii (rev cur)]
               end in
  match s with
  | EmptyString => flush
  | String c t =>
      if is_word_char c then words_aux (c :: cur) t
      else (flush ++ words_aux [] t)%list
  end.

Definition words (s : string) : list string := words_aux [] s.

(** The verbs of statements that write, change the schema or run code. *)
Definition write_verbs : list string :=
  [ "insert"; "update"; "delete"; "drop"; "alter"; "create"; "truncate";
    "replace"; "merge"; "upsert"; "grant"; "revoke"; "exec"; "execute";
    "call"; "set"; "into"; "rename"; "attach"; "copy" ].

(** [verb] occurs in [sql] as a word, in any letter case. *)
Definition mentions (sql verb : string) : bool :=
  existsb (fun w => String.eqb (toLowerCase w) verb) (words sql).

(** The literals between single quotes.  [cur] is [Some] of the literal
    being read, reversed, while inside quotes. *)
Fixpoint literals_aux (cur : option (list ascii)) (s : string) : list string :=
  match s with
  | EmptyString => []
  | String c t =>
      if Ascii.eqb c "'"%char then
        match cur with
        | None => literals_aux (Some []) t
        | Some l => string_of_list_ascii (rev l) :: literals_aux None t
        end
      else
        match cur with
        | None => literals_aux None t
        | Some l => literals_aux (Some (c :: l)) t
        end
  end.

Definition literals (sql : string) : list string := literals_aux None sql.

(** The marks that introduce a bound parameter in a query text:
    [?], [$1], [:name] and [@name]. *)
Definition is_placeholder_mark (c : ascii) : bool :=
  Ascii.eqb c "?"%char || Ascii.eqb c "$"%char
  || Ascii.eqb c ":"%char || Ascii.eqb c "@"%char.

Definition placeholders (sql : string) : list ascii :=
  List.filter is_placeholder_mark (list_ascii_of_string sql).

End SqlText.

(* ===================================================================== *)
(** * Properties of the query panel *)
(* ===================================================================== *)

Module QueryProofs.
Import Js NaturalLanguageQuery SqlText.

(** ** Strings *)

Lemma is_white_lower_char c : is_white (lower_char c) = is_white c.
Proof. destruct c as [[] [] [] [] [] [] [] []]; reflexivity. Qed.

Lemma blank_toLowerCase s : blank (toLowerCase s) = blank s.
Proof.
  induction s as [|c t IH]; simpl; [reflexivity|].
  now rewrite is_white_lower_char, IH.
Qed.

Lemma ascii_eqb_white a b :
  is_white a = false -> is_white b = true -> Ascii.eqb a b = false.
Proof.
  intros Ha Hb. destruct (Ascii.eqb_spec a b) as [->|]; congruence.
Qed.

(** A blank text contains no search string that starts with a visible
    character. *)
Lemma includes_blank s c rest :
  blank s = true -> is_white c = false -> includes s (String c rest) = false.
Proof.
  intros Hs Hc. induction s as [|b t IH]; simpl in *; [reflexivity|].
  apply andb_true_iff in Hs as [Hb Ht].
  rewrite (ascii_eqb_white c b Hc Hb). simpl. auto.
Qed.

Lemma trimStart_blank s : blank s = true -> trimStart s = EmptyString.
Proof.
  induction s as [|c t IH]; simpl; [reflexivity|].
  intros H. apply andb_true_iff in H as [-> Ht]. auto.
Qed.

Lemma trimEnd_visible s :
  blank s = false -> falsy (trimEnd s) = false.
Proof.
  induction s as [|c t IH]; simpl; [discriminate|].
  intros H. destruct (trimEnd t) eqn:E; [|reflexivity].
  destruct (is_white c); [|reflexivity].
  simpl in H. destruct (blank t); [discriminate|].
  specialize (IH eq_refl). discriminate.
Qed.

Lemma blank_trimStart s : blank s = false -> blank (trimStart s) = false.
Proof.
  induction s as [|c t IH]; simpl; [discriminate|].
  destruct (is_white c) eqn:E; simpl; [exact IH|].
  intros _. now rewrite E.
Qed.

(** The guard of line 62 fires exactly on blank input. *)
Lemma falsy_trim s : falsy (trim s) = blank s.
Proof.
  unfold trim. destruct (blank s) eqn:E.
  - now rewrite trimStart_blank.
  - apply trimEnd_visible, blank_trimStart, E.
Qed.

(** ** generateMockSQL *)

(** Whatever holds of the four texts holds of every rendered query. *)
Lemma generateMockSQL_ind (P : string -> Prop) :
  P sql_average -> P sql_count -> P sql_top -> P sql_default ->
  forall q, P (generateMockSQL q).
Proof.
  intros Ha Hc Ht Hd q. unfold generateMockSQL.
  repeat match goal with
         | |- context [if ?b then _ else _] => destruct b
         end; assumption.
Qed.

Lemma generateMockSQL_default q :
  (forall kw, In kw keywords -> includes (toLowerCase q) kw = false) ->
  generateMockSQL q = sql_default.
Proof.
  intros H. unfold generateMockSQL.
  rewrite !H by (simpl; tauto). reflexivity.
Qed.

Lemma generateMockSQL_blank q :
  blank q = true -> generateMockSQL q = sql_default.
Proof.
  intros Hq. apply generateMockSQL_default. intros kw Hin.
  assert (Hb : blank (toLowerCase q) = true) by now rewrite blank_toLowerCase.
  simpl in Hin.
  repeat (destruct Hin as [<- | Hin]; [now apply includes_blank|]).
  contradiction.
Qed.

(** ** The shape of the four texts *)

Lemma select_shaped_texts :
  Forall (fun sql =>
            startsWith sql "SELECT" = true /\
            (forall verb, In verb write_verbs -> mentions sql verb = false) /\
            (forall verb, In verb ["insert"; "update"; "delete"; "drop"] ->
               includes (toLowerCase sql) verb = false))
         [sql_average; sql_count; sql_top; sql_default].
Proof.
  repeat constructor; intros verb Hin; simpl in Hin;
    repeat (destruct Hin as [<- | Hin]; [vm_compute; reflexivity|]);
    contradiction.
Qed.

(** C2. Every rendered query is a read: its text starts with the verb
    SELECT, none of the writing verbs occurs in it as a word in any letter
    case, and INSERT, UPDATE, DELETE and DROP do not even occur inside one
    of its words. *)
Theorem rendered_query_is_select (q : string) :
  startsWith (generateMockSQL q) "SELECT" = true /\
  (forall verb, In verb write_verbs -> mentions (generateMockSQL q) verb = false) /\
  (forall verb, In verb ["insert"; "update"; "delete"; "drop"] ->
     includes (toLowerCase (generateMockSQL q)) verb = false).
Proof.
  pose proof select_shaped_texts as H.
  repeat (apply Forall_cons_1 in H as [? H]).
  apply (generateMockSQL_ind (fun sql =>
    startsWith sql "SELECT" = true /\
    (forall verb, In verb write_verbs -> mentions sql verb = false) /\
    (forall verb, In verb ["insert"; "update"; "delete"; "drop"] ->
       includes (toLowerCase sql) verb = false))); assumption.
Qed.

(** C4. Parsing is total: every question, the empty and the blank ones
    included, gets one of the four texts; a question in which no keyword is
    recognised falls through to the default text, which aggregates
    nothing. *)
Theorem parsing_is_total (q : string) :
  In (generateMockSQL q) [sql_average; sql_count; sql_top; sql_default] /\
  ((forall kw, In kw keywords -> includes (toLowerCase q) kw = false) ->
   generateMockSQL q = sql_default) /\
  (blank q = true -> generateMockSQL q = sql_default) /\
  generateMockSQL "" = sql_default /\
  generateMockSQL "tell me a joke" = sql_default /\
  (forall f, In f ["avg"; "count"; "sum"; "min"; "max"; "group"] ->
     mentions sql_default f = false).
Proof.
  split; [|split; [|split; [|split; [|split]]]].
  - apply generateMockSQL_ind; simpl; tauto.
  - apply generateMockSQL_default.
  - apply generateMockSQL_blank.
  - reflexivity.
  - reflexivity.
  - intros f Hin. simpl in Hin.
    repeat (destruct Hin as [<- | Hin]; [vm_compute; reflexivity|]).
    contradiction.
Qed.

(** A blank question and a question without keywords, run through
    [parsing_is_total]. *)
Lemma parsing_is_total_witness :
  generateMockSQL "   " = sql_default /\
  generateMockSQL "%$#@! ???" = sql_default.
Proof.
  split.
  - apply (proj1 (proj2 (proj2 (parsing_is_total "   ")))). reflexivity.
  - apply (proj1 (proj2 (parsing_is_total "%$#@! ???"))).
    intros kw Hin. simpl in Hin.
    repeat (destruct Hin as [<- | Hin]; [vm_compute; reflexivity|]).
    contradiction.
Defined.

(** ** Keyword detection *)

(** C5, as the code has it. The tests are tried in the order average,
    count, top: an average keyword gives the AVG text with its GROUP BY; a
    count keyword without an average keyword gives the COUNT text, which
    has no GROUP BY; a top keyword without the former two gives the COUNT
    text with GROUP BY, ORDER BY and LIMIT; anything else gives the text
    without aggregation.  The texts are fixed: the example question gets
    the AVG of [score] grouped by [category]. *)
Theorem keyword_detection (q : string) :
  (has_average q = true -> generateMockSQL q = sql_average) /\
  (has_average q = false -> has_count q = true ->
   generateMockSQL q = sql_count) /\
  (has_average q = false -> has_count q = false -> has_top q = true ->
   generateMockSQL q = sql_top) /\
  (has_average q = false -> has_count q = false -> has_top q = false ->
   generateMockSQL q = sql_default) /\
  (includes sql_average "AVG(score)" = true /\
   includes sql_average "GROUP BY category" = true) /\
  (includes sql_count "COUNT(*)" = true /\ mentions sql_count "group" = false) /\
  (includes sql_top "COUNT(*)" = true /\ includes sql_top "GROUP BY" = true /\
   includes sql_top "ORDER BY" = true /\ includes sql_top "LIMIT 5" = true) /\
  generateMockSQL example_question = sql_average.
Proof.
  unfold has_average, has_count, has_top, generateMockSQL.
  repeat split; try reflexivity; intros; 
    repeat match goal with
           | H : ?b = _ |- context [if ?b then _ else _] => rewrite H
           end; reflexivity.
Qed.

(** One question per branch, run through [keyword_detection]. *)
Lemma keyword_detection_witness :
  generateMockSQL "AVG rating per city" = sql_average /\
  generateMockSQL "How many top sellers?" = sql_count /\
  generateMockSQL "most common complaint" = sql_top /\
  generateMockSQL "list everything" = sql_default.
Proof.
  split; [|split; [|split]].
  - apply (proj1 (keyword_detection "AVG rating per city")). reflexivity.
  - apply (proj1 (proj2 (keyword_detection "How many top sellers?")));
      reflexivity.
  - apply (proj1 (proj2 (proj2 (keyword_detection "most common complaint"))));
      reflexivity.
  - apply (proj1 (proj2 (proj2 (proj2 (keyword_detection "list everything")))));
      reflexivity.
Defined.

(** C5 as stated fails on its example: the rendered text names neither
    the satisfaction field nor the age group, and a question with both a
    count and a top keyword gets no group, order or limit. *)
Lemma keyword_detection_counterexample :
  includes (generateMockSQL example_question) "satisfaction" = false /\
  includes (generateMockSQL example_question) "age_group" = false /\
  has_top "How many top sellers?" = true /\
  includes (generateMockSQL "How many top sellers?") "LIMIT" = false.
Proof. repeat split. Qed.

(** ** What of the question reaches the rendered text *)

(** C3, as the code has it. The rendered text is one of four fixed texts
    and depends on the question through the three keyword tests only, so
    nothing of the question is copied into it.  Nothing is bound either:
    the text has no parameter mark, and the only literal it can carry is
    the fixed ['value'], written inline. *)
Theorem rendered_text_is_fixed (q : string) :
  In (generateMockSQL q) [sql_average; sql_count; sql_top; sql_default] /\
  placeholders (generateMockSQL q) = [] /\
  (forall lit, In lit (literals (generateMockSQL q)) -> lit = "value") /\
  (forall q', has_average q' = has_average q -> has_count q' = has_count q ->
              has_top q' = has_top q ->
              generateMockSQL q' = generateMockSQL q).
Proof.
  split; [|split; [|split]].
  - apply generateMockSQL_ind; simpl; tauto.
  - apply generateMockSQL_ind; reflexivity.
  - apply (generateMockSQL_ind
             (fun sql => forall lit, In lit (literals sql) -> lit = "value"));
      intros lit Hin; vm_compute in Hin; intuition congruence.
  - intros q' Ha Hc Ht. unfold generateMockSQL.
    fold (has_average q) (has_count q) (has_top q).
    fold (has_average q') (has_count q') (has_top q').
    now rewrite Ha, Hc, Ht.
Qed.

(** Two questions that differ in the value they ask about, run through
    [rendered_text_is_fixed]. *)
Lemma rendered_text_is_fixed_witness :
  generateMockSQL "how many responses have a rating above 2"
  = generateMockSQL "how many responses have a rating above 4".
Proof.
  apply (proj2 (proj2 (proj2 (rendered_text_is_fixed
           "how many responses have a rating above 4")))); reflexivity.
Defined.

(** C3 as stated fails where it says that the values of the question are
    bound as parameters: the value 4 of this question is neither in the
    text nor bound, the text has no parameter mark at all, its filter
    compares with the literal ['value'] written inline, and asking about
    2 instead renders the same text. *)
Lemma rendered_text_counterexample :
  let q := "how many responses have a rating above 4" in
  placeholders (generateMockSQL q) = [] /\
  includes (generateMockSQL q) "4" = false /\
  literals (generateMockSQL q) = ["value"] /\
  includes (generateMockSQL q) "WHERE condition = 'value'" = true /\
  generateMockSQL "how many responses have a rating above 2" = generateMockSQL q.
Proof. repeat split. Qed.

(** ** Determinism *)

(** *** The arithmetic of a draw *)

Lemma round_half_even_error n s :
  0 <= n -> 0 <= s ->
  0 <= round_half_even n s /\
  2 * (round_half_even n s * 2 ^ s - n) <= 2 ^ s.
Proof.
  intros Hn Hs. unfold round_half_even.
  assert (HP : 0 < 2 ^ s) by (apply Z.pow_pos_nonneg; lia).
  pose proof (Z.div_mod n (2 ^ s) ltac:(lia)) as E.
  pose proof (Z.mod_pos_bound n (2 ^ s) HP) as Hr.
  assert (Hq : 0 <= n / 2 ^ s) by (apply Z.div_pos; lia).
  set (q := n / 2 ^ s) in *. set (r := n mod 2 ^ s) in *.
  set (P := 2 ^ s) in *.
  destruct (Z.ltb_spec (2 * r) P); [split; nia|].
  destruct (Z.ltb_spec P (2 * r)); [split; nia|].
  destruct (Z.even q); split; nia.
Qed.

(** The product of a draw and a factor below [2^b] loses at most [b]
    bits. *)
Lemma shift_bound k m b :
  0 <= k < 2 ^ 53 -> 0 < m < 2 ^ b -> 0 <= b ->
  0 <= Z.max 0 (Z.log2 (k * m) + 1 - 53) <= b.
Proof.
  intros Hk Hm Hb. split; [lia|].
  apply Z.max_lub; [lia|].
  destruct (Z.eq_dec (k * m) 0) as [->|Hne]; [simpl; lia|].
  assert (Hlt : k * m < 2 ^ (53 + b)).
  { rewrite Z.pow_add_r by lia. nia. }
  apply Z.log2_lt_pow2 in Hlt; [lia | nia].
Qed.

(** Rounding never carries the product of a draw and [m] up to [m], when
    [m] is not a power of two: [Math.floor(Math.random() * m)] is one of
    [0 .. m - 1]. *)
Lemma floor_times_range k m b :
  0 <= k < 2 ^ 53 -> 0 < m < 2 ^ b -> 0 <= b -> 2 ^ b < 2 * m ->
  0 <= floor_times k m < m.
Proof.
  intros Hk Hm Hb Hnp. unfold floor_times.
  pose proof (shift_bound k m b Hk Hm Hb) as Hs.
  set (s := Z.max 0 (Z.log2 (k * m) + 1 - 53)) in *.
  destruct (round_half_even_error (k * m) s ltac:(nia) ltac:(lia)) as [HM He].
  set (M := round_half_even (k * m) s) in *.
  assert (HP : 0 < 2 ^ s <= 2 ^ b).
  { split; [apply Z.pow_pos_nonneg; lia | apply Z.pow_le_mono_r; lia]. }
  split.
  - apply Z.div_pos; [nia | lia].
  - apply Z.div_lt_upper_bound; [lia|]. nia.
Qed.

Lemma total_count_range k :
  0 <= k < 2 ^ 53 -> 100 <= floor_times k 1000 + 100 <= 1099.
Proof.
  intros Hk. pose proof (floor_times_range k 1000 10 Hk) as H. lia.
Qed.

Lemma score_range k :
  0 <= k < 2 ^ 53 -> 1 <= floor_times k 5 + 1 <= 5.
Proof.
  intros Hk. pose proof (floor_times_range k 5 3 Hk) as H. lia.
Qed.

(** *** The results *)

Lemma Array_from_sample_rows (s : RandomSource) :
  fst (Array_from 5 sample_row s)
  = map (fun i => [ ("id", JNum (inject_Z (Z.of_nat i + 1)));
                    ("value", JStr ("Sample data " ++ number_to_string (Z.of_nat i + 1)));
                    ("score", JNum (inject_Z (floor_times (s i) 5 + 1))) ])
        (seq 0 5).
Proof. reflexivity. Qed.


Lemma generateMockResults_shape (q : string) (s1 s2 : RandomSource) :
  count (fst (generateMockResults q s1)) = count (fst (generateMockResults q s2)) /\
  map (map fst) (data (fst (generateMockResults q s1)))
  = map (map fst) (data (fst (generateMockResults q s2))).
Proof.
  unfold generateMockResults.
  destruct (_ || _); [split; reflexivity|].
  destruct (_ || _); split; reflexivity.
Qed.






(** ** The query history *)

(** C8. Submitting a blank text (empty, or white space only) changes
    nothing: the handler returns at its guard with the whole state as it
    was, history and loading flag included, schedules no work and makes no
    draw. *)
Theorem blank_submit_changes_nothing
        (now stamp : Z) (st : State) (s : RandomSource) :
  blank (st_query st) = true ->
  handleSubmit_begin now stamp st = (st, None) /\
  handleSubmit now stamp st s = (st, s).
Proof.
  intros Hb. unfold handleSubmit, handleSubmit_begin.
  rewrite falsy_trim, Hb. split; reflexivity.
Qed.

(** The loaded history with a text of spaces, a tab and a line feed in the
    input box, run through [blank_submit_changes_nothing]. *)
Lemma blank_submit_changes_nothing_witness :
  let st := {| st_query := String " " (String "009" (String "010" " "));
               st_queries := loaded;
               st_isLoading := false; st_selectedQuery := None |} in
  handleSubmit_begin 1700000000001 1700000000001 st = (st, None) /\
  handleSubmit 1700000000001 1700000000001 st (constant_source 0)
  = (st, constant_source 0).
Proof.
  exact (blank_submit_changes_nothing 1700000000001 1700000000001
           {| st_query := String " " (String "009" (String "010" " "));
              st_queries := loaded;
              st_isLoading := false; st_selectedQuery := None |}
           (constant_source 0) eq_refl).
Defined.

Lemma complete_update_lookup new_id mockSQL mockResults prev (i : nat) :
  complete_update new_id mockSQL mockResults prev !! i
  = (fun q => if id q =? new_id then completed mockSQL mockResults q else q)
      <$> prev !! i.
Proof. unfold complete_update. apply list_lookup_fmap. Qed.

Lemma fail_update_lookup new_id prev (i : nat) :
  fail_update new_id prev !! i
  = (fun q => if id q =? new_id then failed q else q) <$> prev !! i.
Proof. unfold fail_update. apply list_lookup_fmap. Qed.

Lemma complete_update_ids new_id mockSQL mockResults prev :
  map id (complete_update new_id mockSQL mockResults prev) = map id prev.
Proof.
  unfold complete_update. rewrite map_map. apply map_ext.
  intros q. now destruct (id q =? new_id).
Qed.

Lemma fail_update_ids new_id prev :
  map id (fail_update new_id prev) = map id prev.
Proof.
  unfold fail_update. rewrite map_map. apply map_ext.
  intros q. now destruct (id q =? new_id).
Qed.

Lemma handleSubmit_resolve_queries p later s :
  st_queries (fst (handleSubmit_resolve p later s))
  = complete_update (id (newQuery p)) (generateMockSQL (submitted p))
      (fst (generateMockResults (submitted p) s)) (st_queries later).
Proof.
  unfold handleSubmit_resolve, bind, ret.
  now destruct (generateMockResults (submitted p) s).
Qed.

(** C9. A submission that passes the guard puts its entry, in state
    processing, with the clock reading as id, the trimmed text as question
    and no sql, results or error, at the head of the history, in front of
    the entries that were there.  When it completes or fails, whatever the
    history is by then, the update keeps every position and every id; an
    entry with another id is left as it was; an entry with the id of the
    submission keeps its id, question and timestamp and, on completion,
    gains the status completed, the SQL text and the results generated
    from the text as it was typed, its error unchanged, or, on failure,
    gains the status failed and the error text of line 93, its sql and
    results unchanged. *)
Theorem history_update_isolation
        (now stamp : Z) (st st1 : State) (p : Pending) :
  handleSubmit_begin now stamp st = (st1, Some p) ->
  st_queries st1 = newQuery p :: st_queries st /\
  newQuery p = {| id := now; query := trim (st_query st);
                  status := "processing"; timestamp := stamp;
                  sql := None; results := None; error := None |} /\
  submitted p = st_query st /\
  forall (later : State) (s : RandomSource),
    let done := fst (handleSubmit_resolve p later s) in
    let broke := handleSubmit_reject p later in
    let mockSQL := generateMockSQL (st_query st) in
    let mockResults := fst (generateMockResults (st_query st) s) in
    length (st_queries done) = length (st_queries later) /\
    length (st_queries broke) = length (st_queries later) /\
    map id (st_queries done) = map id (st_queries later) /\
    map id (st_queries broke) = map id (st_queries later) /\
    forall (i : nat) (q : QueryEntry),
      st_queries later !! i = Some q ->
      (id q <> now ->
       st_queries done !! i = Some q /\ st_queries broke !! i = Some q) /\
      (id q = now ->
       st_queries done !! i
       = Some {| id := id q; query := query q; status := "completed";
                 timestamp := timestamp q; sql := Some mockSQL;
                 results := Some mockResults; error := error q |} /\
       st_queries broke !! i
       = Some {| id := id q; query := query q; status := "failed";
                 timestamp := timestamp q; sql := sql q;
                 results := results q;
                 error := Some "Failed to process query" |}).
Proof.
  unfold handleSubmit_begin.
  destruct (falsy (trim (st_query st))); [discriminate|].
  intros E. injection E as <- <-. simpl.
  repeat (split; [reflexivity|]).
  intros later s.
  rewrite handleSubmit_resolve_queries. simpl.
  split; [unfold complete_update; apply length_map|].
  split; [unfold fail_update; apply length_map|].
  split; [apply complete_update_ids|].
  split; [apply fail_update_ids|].
  intros i q Hq.
  rewrite complete_update_lookup, fail_update_lookup, Hq. simpl.
  split; intros Hid.
  - apply Z.eqb_neq in Hid. now rewrite Hid.
  - apply Z.eqb_eq in Hid. now rewrite Hid.
Qed.

(** A question submitted over the loaded history, run through
    [history_update_isolation]: the new entry is at the head; on
    completion it has the status completed and the SQL text of a count,
    and on failure the status failed and the error text, its other fields
    kept; either way the three loaded entries keep their places
    unchanged. *)
Lemma history_update_isolation_witness :
  let st := {| st_query := " how many answers? ";
               st_queries := loaded;
               st_isLoading := false; st_selectedQuery := None |} in
  let begun := handleSubmit_begin 1700000000123 1700000000124 st in
  match snd begun with
  | Some p =>
      st_queries (fst begun) = newQuery p :: loaded /\
      query (newQuery p) = "how many answers?" /\
      forall s,
        st_queries (fst (handleSubmit_resolve p (fst begun) s)) !! 0%nat
        = Some {| id := 1700000000123; query := "how many answers?";
                  status := "completed"; timestamp := 1700000000124;
                  sql := Some sql_count;
                  results :=
                    Some (fst (generateMockResults " how many answers? " s));
                  error := None |} /\
        st_queries (handleSubmit_reject p (fst begun)) !! 0%nat
        = Some {| id := 1700000000123; query := "how many answers?";
                  status := "failed"; timestamp := 1700000000124;
                  sql := None; results := None;
                  error := Some "Failed to process query" |} /\
        drop 1 (st_queries (fst (handleSubmit_resolve p (fst begun) s)))
        = loaded /\
        drop 1 (st_queries (handleSubmit_reject p (fst begun))) = loaded
  | None => False
  end.
Proof.
  cbv zeta.
  pose proof (history_update_isolation 1700000000123 1700000000124
    {| st_query := " how many answers? ";
       st_queries := loaded;
       st_isLoading := false; st_selectedQuery := None |}) as H.
  destruct (handleSubmit_begin 1700000000123 1700000000124 _)
    as [st1 [p|]] eqn:E; [|discriminate E].
  destruct (H st1 p eq_refl) as (Hq & Hnew & _ & Hlater).
  cbn [fst snd]. split; [exact Hq|]. split; [now rewrite Hnew|].
  intros s. destruct (Hlater st1 s) as (Hlen & Hlen' & _ & _ & Hpos).
  rewrite Hq in Hpos, Hlen, Hlen'.
  destruct (proj2 (Hpos 0%nat (newQuery p) eq_refl)) as [Hdone Hbroke];
    [now rewrite Hnew|].
  rewrite Hnew in Hdone, Hbroke.
  split; [exact Hdone|]. split; [exact Hbroke|].
  assert (Hne : forall i q, loaded !! i = Some q -> id q <> 1700000000123).
  { intros i q Hi.
    do 3 (destruct i as [|i]; [injection Hi as <-; discriminate|]).
    discriminate Hi. }
  split; apply list_eq; intros i; rewrite lookup_drop;
    (destruct (loaded !! i) as [q|] eqn:Hi;
     [ destruct (proj1 (Hpos (1 + i)%nat q Hi) (Hne i q Hi)) as [H1 H2];
       assumption
     | apply lookup_ge_None; apply lookup_ge_None in Hi;
       simpl in Hlen, Hlen', Hi |- *; lia ]).
Defined.

End QueryProofs.

(* ===================================================================== *)
(** * Properties of the survey builder *)
(* ===================================================================== *)

Module BuilderProofs.
Import Js SurveyBuilder.

(** ** Arrays *)

Lemma splice_insert_ok (P : option Field -> Prop) i x arr :
  P x -> Forall P arr -> Forall P (splice_insert i x arr).
Proof.
  intros Hx Harr. unfold splice_insert.
  apply Forall_app. split; [now apply Forall_take|].
  constructor; [exact Hx | now apply Forall_drop].
Qed.

Lemma splice_remove_ok (P : option Field -> Prop) i arr :
  Forall P arr ->
  Forall P (fst (splice_remove i arr)) /\
  (forall x, snd (splice_remove i arr) = Some x -> P x).
Proof.
  intros Harr. unfold splice_remove. simpl. split.
  - apply Forall_app. split; [now apply Forall_take | now apply Forall_drop].
  - intros x Hx. rewrite Forall_lookup in Harr. exact (Harr i x Hx).
Qed.

Lemma js_map_ok (f : Field -> Field) arr arr' :
  (forall x, field_ok x -> field_ok (f x)) ->
  Forall slot_ok arr -> js_map f arr = Some arr' -> Forall slot_ok arr'.
Proof.
  intros Hf. revert arr'.
  induction arr as [|[x|] rest IH]; simpl; intros arr' Harr E.
  - injection E as <-. constructor.
  - destruct (js_map f rest) as [rest'|]; [|discriminate].
    injection E as <-. inversion Harr; subst.
    constructor; [simpl; auto | auto].
  - discriminate.
Qed.

Lemma js_filter_ok (p : Field -> bool) arr arr' :
  Forall slot_ok arr -> js_filter p arr = Some arr' -> Forall slot_ok arr'.
Proof.
  revert arr'.
  induction arr as [|[x|] rest IH]; simpl; intros arr' Harr E.
  - injection E as <-. constructor.
  - destruct (js_filter p rest) as [rest'|]; [|discriminate].
    injection E as <-. inversion Harr; subst.
    destruct (p x); [constructor|]; auto.
  - discriminate.
Qed.

Lemma js_find_ok fieldId arr field :
  Forall slot_ok arr -> js_find fieldId arr = Some (Some field) -> field_ok field.
Proof.
  induction arr as [|[x|] rest IH]; simpl; intros Harr E; try discriminate.
  inversion Harr; subst.
  destruct (String.eqb (id x) fieldId); [|auto].
  now injection E as <-.
Qed.

(** ** Option lists *)

Lemma length_imap_options (g : nat -> FieldOption -> FieldOption) opts :
  length (imap g opts) = length opts.
Proof. apply length_imap. Qed.

Lemma length_filter_index {A} optionIndex start (opts : list A) :
  (length opts <= S (length (filter_index optionIndex start opts)))%nat.
Proof.
  revert start. induction opts as [|o rest IH]; intros start; simpl; [lia|].
  destruct (Nat.eqb_spec start optionIndex) as [->|Hne].
  - (* the one position that is dropped; nothing after it is *)
    clear IH. enough (E : filter_index optionIndex (S optionIndex) rest = rest)
      by (rewrite E; lia).
    generalize (Nat.lt_succ_diag_r optionIndex).
    generalize (S optionIndex) as k.
    induction rest as [|o' rest' IH']; intros k Hk; simpl; [reflexivity|].
    destruct (Nat.eqb_spec k optionIndex); [lia|].
    f_equal. apply IH'. lia.
  - simpl. specialize (IH (S start)). lia.
Qed.

(** ** Fields *)

Lemma newField_ok now fieldType : field_ok (newField now fieldType).
Proof.
  unfold field_ok, newField. simpl.
  destruct (has_options (ft_type fieldType)); split; congruence.
Qed.

(** Creation: a field of an option-bearing type starts with exactly one
    option, any other field with none. *)
Lemma newField_options now fieldType :
  options (newField now fieldType)
  = if has_options (ft_type fieldType)
    then Some [ {| value := "option1"; o_label := "Option 1" |} ]
    else None.
Proof. reflexivity. Qed.

Lemma spread_ok field updates :
  u_options updates <> Some [] -> field_ok field -> field_ok (spread field updates).
Proof.
  intros Hu [Hhas Hne]. unfold field_ok, spread. simpl.
  destruct (u_options updates) as [l|]; split; auto; congruence.
Qed.

Lemma updateField_ok fieldId updates st :
  u_options updates <> Some [] -> fields_ok st ->
  fields_ok (updateField fieldId updates st).
Proof.
  intros Hu Hst. unfold updateField.
  destruct (js_map _ (fields st)) as [newFields|] eqn:E; [|exact Hst].
  unfold fields_ok. simpl. eapply js_map_ok; [|exact Hst|exact E].
  intros x Hx. simpl. destruct (String.eqb (id x) fieldId); [|exact Hx].
  now apply spread_ok.
Qed.

Lemma deleteField_ok fieldId st : fields_ok st -> fields_ok (deleteField fieldId st).
Proof.
  intros Hst. unfold deleteField.
  destruct (js_filter _ (fields st)) as [newFields|] eqn:E; [|exact Hst].
  unfold fields_ok. simpl. eapply js_filter_ok; [exact Hst|exact E].
Qed.

Lemma addOption_ok fieldId st : fields_ok st -> fields_ok (addOption fieldId st).
Proof.
  intros Hst. unfold addOption.
  destruct (js_find fieldId (fields st)) as [[field|]|]; try exact Hst.
  destruct (options field) as [opts|]; [|exact Hst].
  apply updateField_ok; [|exact Hst]. simpl.
  intros E. injection E as E. now apply app_eq_nil in E as [_ ?].
Qed.

Lemma updateOption_ok fieldId optionIndex updates st :
  fields_ok st -> fields_ok (updateOption fieldId optionIndex updates st).
Proof.
  intros Hst. unfold updateOption.
  destruct (js_find fieldId (fields st)) as [[field|]|] eqn:F; try exact Hst.
  destruct (options field) as [opts|] eqn:O; [|exact Hst].
  apply updateField_ok; [|exact Hst]. simpl.
  intros E. injection E as E.
  apply (f_equal length) in E. rewrite length_imap in E. simpl in E.
  destruct (js_find_ok _ _ _ Hst F) as [_ Hne].
  apply Hne. rewrite O. f_equal. now apply length_zero_iff_nil.
Qed.

Lemma removeOption_ok fieldId optionIndex st :
  fields_ok st -> fields_ok (removeOption fieldId optionIndex st).
Proof.
  intros Hst. unfold removeOption.
  destruct (js_find fieldId (fields st)) as [[field|]|]; try exact Hst.
  destruct (options field) as [opts|]; [|exact Hst].
  destruct (Nat.ltb_spec 1 (length opts)) as [Hlen|]; [|exact Hst].
  apply updateField_ok; [|exact Hst]. simpl.
  intros E. injection E as E.
  pose proof (length_filter_index optionIndex 0 opts) as H.
  rewrite E in H. simpl in H. lia.
Qed.

(** Removal: the one option left is never removed. *)
Lemma removeOption_last fieldId optionIndex st field o :
  js_find fieldId (fields st) = Some (Some field) ->
  options field = Some [o] ->
  removeOption fieldId optionIndex st = st.
Proof. intros F O. unfold removeOption. now rewrite F, O. Qed.

Lemma handleDragEnd_ok now result st :
  fields_ok st -> fields_ok (handleDragEnd now result st).
Proof.
  intros Hst. unfold handleDragEnd.
  destruct (destination result) as [dest|]; [|exact Hst].
  destruct (_ && _).
  - destruct (FIELD_TYPES !! index (source result)) as [fieldType|]; [|exact Hst].
    unfold fields_ok. simpl. apply splice_insert_ok; [|exact Hst].
    simpl. apply newField_ok.
  - destruct (_ && _); [|exact Hst].
    destruct (splice_remove _ (fields st)) as [newFields taken] eqn:E.
    destruct (splice_remove_ok slot_ok (index (source result)) (fields st) Hst)
      as [Hrest Htaken].
    rewrite E in Hrest, Htaken. simpl in Hrest, Htaken.
    unfold fields_ok. simpl. apply splice_insert_ok; [|exact Hrest].
    destruct taken as [x|]; simpl; [now apply Htaken | exact I].
Qed.

Lemma step_ok st ev : fields_ok st -> fields_ok (step st ev).
Proof.
  intros Hst. destruct ev; simpl;
    repeat match goal with
           | |- fields_ok (match ?x with _ => _ end) => destruct x
           | |- fields_ok (if ?b then _ else _) => destruct b
           end;
    auto using handleDragEnd_ok, deleteField_ok, addOption_ok,
               updateOption_ok, removeOption_ok;
    try (apply updateField_ok; [discriminate | exact Hst]).
Qed.

Lemma run_ok evs : forall st, fields_ok st -> fields_ok (run st evs).
Proof.
  unfold run. induction evs as [|ev evs IH]; intros st Hst; simpl; [exact Hst|].
  apply IH, step_ok, Hst.
Qed.

Lemma has_options_spec t :
  has_options t = true <-> t = "select" \/ t = "radio" \/ t = "checkbox".
Proof.
  unfold has_options. rewrite !orb_true_iff, !String.eqb_eq. tauto.
Qed.

Lemma fields_ok_at_least_one st : fields_ok st -> at_least_one_option st.
Proof.
  intros Hst f Hin Ht.
  unfold fields_ok in Hst. rewrite List.Forall_forall in Hst.
  destruct (Hst _ Hin) as [Hhas Hne].
  apply has_options_spec in Ht. specialize (Hhas Ht).
  destruct (options f) as [[|o opts]|]; try congruence.
  exists (o :: opts). split; [reflexivity | simpl; lia].
Qed.

Lemma js_find_id fieldId arr field :
  js_find fieldId arr = Some (Some field) -> String.eqb (id field) fieldId = true.
Proof.
  induction arr as [|[x|] rest IH]; simpl; intros E; try discriminate.
  destruct (String.eqb (id x) fieldId) eqn:Hx; [|auto].
  now injection E as <-.
Qed.

Lemma js_find_js_map (g : Field -> Field) fieldId arr arr' field :
  (forall x, id (g x) = id x) ->
  js_map g arr = Some arr' ->
  js_find fieldId arr = Some (Some field) ->
  js_find fieldId arr' = Some (Some (g field)).
Proof.
  intros Hg. revert arr'.
  induction arr as [|[x|] rest IH]; simpl; intros arr' M F; try discriminate.
  destruct (js_map g rest) as [rest'|]; [|discriminate].
  injection M as <-. simpl. rewrite Hg.
  destruct (String.eqb (id x) fieldId); [now injection F as <- | auto].
Qed.

(** Addition: when the callback goes through, the field it found has the
    options it had, followed by one new option. *)
Lemma addOption_grows fieldId st field opts :
  js_find fieldId (fields st) = Some (Some field) ->
  options field = Some opts ->
  addOption fieldId st = st \/
  exists field' o,
    js_find fieldId (fields (addOption fieldId st)) = Some (Some field') /\
    options field' = Some (opts ++ [o])%list.
Proof.
  intros F O. unfold addOption. rewrite F, O. unfold updateField.
  destruct (js_map _ (fields st)) as [newFields|] eqn:M; [right | now left].
  eexists _, _. simpl. split.
  - eapply js_find_js_map; [|exact M|exact F].
    intros x. simpl. now destruct (String.eqb (id x) fieldId).
  - simpl. rewrite (js_find_id _ _ _ F). reflexivity.
Qed.

(** ** The invariant *)

(** C10. From a builder whose fields are well formed, and so from the
    empty builder, no sequence of events leaves a select, radio or
    checkbox field without an option: such a field is created with exactly
    one option, [addOption] appends one option to the list it found, and
    [removeOption] leaves the state alone when the field it found has a
    single option. *)
Theorem option_count_invariant (st : State) (evs : list Event) :
  fields_ok st ->
  at_least_one_option (run st evs) /\
  at_least_one_option (run initialState evs) /\
  (forall now fieldType,
     has_options (ft_type fieldType) = true ->
     exists o, options (newField now fieldType) = Some [o]) /\
  (forall fieldId field opts,
     js_find fieldId (fields st) = Some (Some field) ->
     options field = Some opts ->
     addOption fieldId st = st \/
     exists field' o,
       js_find fieldId (fields (addOption fieldId st)) = Some (Some field') /\
       options field' = Some (opts ++ [o])%list) /\
  (forall fieldId optionIndex field o,
     js_find fieldId (fields st) = Some (Some field) ->
     options field = Some [o] ->
     removeOption fieldId optionIndex st = st).
Proof.
  intros Hst. split; [|split; [|split; [|split]]].
  - apply fields_ok_at_least_one, run_ok, Hst.
  - apply fields_ok_at_least_one, run_ok. constructor.
  - intros now fieldType H. rewrite newField_options, H. eauto.
  - intros fieldId field opts. apply addOption_grows.
  - intros fieldId optionIndex field o. apply removeOption_last.
Qed.

(** [session], run through [option_count_invariant]: the dropdown ends
    with its second option, the last removal having been refused. *)
Lemma option_count_invariant_witness :
  fields_ok initialState /\
  at_least_one_option (run initialState session) /\
  (option_map options <$> fields (run initialState session))
  = [ Some (Some [ {| value := "option2"; o_label := "Option 2" |} ]) ].
Proof.
  assert (H0 : fields_ok initialState) by constructor.
  split; [exact H0|]. split.
  - exact (proj1 (option_count_invariant initialState session H0)).
  - reflexivity.
Defined.

End BuilderProofs.

(* ===================================================================== *)
(** * Properties of the estimator *)
(* ===================================================================== *)

Module EstimatorProofs.
Import Estimator.
Local Open Scope R_scope.

Lemma zero_real_true (x : R) : x = 0 -> zero_real x = true.
Proof. intros ->. unfold zero_real. now destruct (Req_dec_T 0 0). Qed.

Lemma zero_real_false (x : R) : x <> 0 -> zero_real x = false.
Proof. intros H. unfold zero_real. now destruct (Req_dec_T x 0). Qed.

Lemma negative_real_false (x : R) : 0 <= x -> negative_real x = false.
Proof. intros H. unfold negative_real. destruct (Rlt_dec x 0); [lra|easy]. Qed.

Lemma div_finite (a b : R) :
  b <> 0 -> div (Finite a) (Finite b) = Finite (a / b).
Proof. intros H. unfold div. now rewrite zero_real_false. Qed.

Lemma div_zero_zero (a b : R) :
  a = 0 -> b = 0 -> div (Finite a) (Finite b) = NaN.
Proof. intros Ha Hb. unfold div. now rewrite !zero_real_true. Qed.

Lemma square_root_finite (v : R) :
  0 <= v -> square_root (Finite v) = Finite (sqrt v).
Proof. intros H. unfold square_root. now rewrite negative_real_false. Qed.

Lemma finite_eq (a b : R) : a = b -> Finite a = Finite b.
Proof. now intros ->. Qed.

Lemma sum_one (x : R) : sum [Finite x] = Finite x.
Proof. unfold sum. simpl. apply finite_eq. lra. Qed.

Lemma count_one (a : Number) : count [a] = Finite 1.
Proof. reflexivity. Qed.

Lemma average_one (x : R) : average [Finite x] = Finite x.
Proof.
  unfold average. rewrite sum_one, count_one, div_finite by lra.
  apply finite_eq. field.
Qed.

Lemma variance_one (a : Number) : variance [a] = Finite 0.
Proof. reflexivity. Qed.

(** Why step 4 is there: on one observation the formula of the sample
    variance divides 0 by 0. *)
Lemma sample_variance_one (x : R) : sample_variance [Finite x] = NaN.
Proof.
  unfold sample_variance, squared_deviations. rewrite count_one.
  cbn [map]. rewrite average_one. unfold sum. cbn [foldr sub opp add mul].
  apply div_zero_zero; lra.
Qed.

(** Without step 4 the standard error of one observation is NaN. *)
Lemma standard_error_by_formula_one (x : R) :
  standard_error_by_formula [Finite x] = NaN.
Proof.
  unfold standard_error_by_formula. now rewrite sample_variance_one.
Qed.

Lemma interval_collapsed (z m : R) :
  interval z (Finite m) (Finite 0) = (Finite m, Finite m).
Proof. unfold interval. cbn [sub opp add mul]. f_equal; apply finite_eq; lra. Qed.

Lemma standard_error_one (a : Number) :
  div (square_root (variance [a])) (square_root (count [a])) = Finite 0.
Proof.
  rewrite variance_one, count_one, !square_root_finite by lra.
  rewrite sqrt_0, sqrt_1, div_finite by lra. apply finite_eq. lra.
Qed.

Lemma usable_one scale (r : Response) targetField (x : Number) :
  data r !! targetField ≫= coerce scale = Some x ->
  usable scale targetField [r] = [(r, x)].
Proof.
  unfold usable. simpl. intros H.
  destruct (data r !! targetField) as [v|]; simpl in H; [|discriminate].
  now rewrite H.
Qed.

Lemma estimate_simple_one (z x : R) :
  estimate_simple z [Finite x]
  = inr {| mean := Finite x; confidenceInterval := (Finite x, Finite x);
           standardError := Finite 0; sampleSize := 1;
           effectiveSampleSize := None; designEffect := None |}.
Proof.
  unfold estimate_simple. rewrite average_one, standard_error_one.
  now rewrite interval_collapsed.
Qed.

Lemma summarise_one (p x : R) :
  summarise 1 p [Finite x]
  = {| share := Finite 1; weight := Finite p; stratum_mean := Finite x;
       stratum_variance := Finite 0; stratum_size := 1 |}.
Proof.
  unfold summarise. rewrite average_one, variance_one, count_one.
  change (INR 1) with 1. rewrite div_finite by lra.
  replace (1 / 1) with 1 by field. rewrite div_finite by lra.
  replace (p / 1) with p by field. reflexivity.
Qed.

Lemma estimate_stratified_one (z : R) by_field (s : string) (p x : R)
      (r : Response) :
  stratum_of by_field r = Some s ->
  Rabs (p - 1) <= tolerance ->
  estimate_stratified z by_field {[ s := p ]} [(r, Finite x)]
  = inr {| mean := Finite x; confidenceInterval := (Finite x, Finite x);
           standardError := Finite 0; sampleSize := 1;
           effectiveSampleSize := None; designEffect := None |}.
Proof.
  intros Hs Hp.
  assert (Hpos : p <> 0).
  { unfold tolerance, Rabs in Hp. destruct (Rcase_abs (p - 1)); lra. }
  unfold estimate_stratified. rewrite map_to_list_singleton.
  unfold proportions_total. cbn [map foldr snd].
  destruct (Rle_dec _ tolerance) as [_|Hn];
    [|exfalso; apply Hn; now replace (p + 0 - 1) with (p - 1) by lra].
  cbn [labelled]. rewrite Hs. unfold declared. cbn [forallb existsb fst].
  rewrite String.eqb_refl. cbn [orb andb length summaries].
  assert (Hin : in_stratum s [(s, Finite x)] = [Finite x]).
  { unfold in_stratum. simpl. now rewrite String.eqb_refl. }
  rewrite Hin, summarise_one.
  cbn [map snd]. rewrite variance_one. unfold normalised, sum.
  cbn [map foldr weight share stratum_mean stratum_variance stratum_size
       mul add].
  change (INR 1) with 1.
  assert (Hp1 : p * 1 + 0 <> 0) by lra.
  rewrite !div_finite by lra. cbn [mul add].
  rewrite !div_finite by lra. cbn [add is_zero].
  rewrite (zero_real_true (0 / 1)) by lra.
  rewrite square_root_finite by (apply Req_le; field; lra).
  match goal with
  | |- context [sqrt ?v] => replace v with 0 by (field; lra)
  end.
  rewrite sqrt_0.
  replace ((p * x * 1 + 0) / (p * 1 + 0)) with x by (field; lra).
  now rewrite interval_collapsed.
Qed.

(** C6. With one respondent whose target value coerces to the finite
    number [x], under no design or under the design of one stratum, the
    estimate exists, its mean is [x], its standard error is the finite
    number 0, not NaN, and both bounds of its confidence interval are the
    mean. *)
Theorem single_respondent_estimate
        (scale : string -> option R) (z : R) (r : Response)
        (targetField : string) (design : SamplingDesign) (x : R) :
  data r !! targetField ≫= coerce scale = Some (Finite x) ->
  single_stratum r design ->
  exists result,
    estimate scale z [r] targetField design = inr result /\
    mean result = Finite x /\
    standardError result = Finite 0 /\
    standardError result <> NaN /\
    confidenceInterval result = (mean result, mean result) /\
    sampleSize result = 1%nat.
Proof.
  intros Hx Hd. unfold estimate. rewrite (usable_one _ _ _ _ Hx).
  destruct Hd as [-> | (-> & by_field & s & p & -> & -> & Hs & Hp)];
    cbv beta iota.
  - change (map snd [(r, Finite x)]) with [Finite x].
    rewrite estimate_simple_one. eexists. split; [reflexivity|].
    simpl. repeat split. discriminate.
  - rewrite (estimate_stratified_one z by_field s p x r Hs Hp).
    eexists. split; [reflexivity|]. simpl. repeat split. discriminate.
Qed.

(** [lone_response] under [lone_design], run through
    [single_respondent_estimate] at the 95% level. *)
Lemma single_respondent_estimate_witness :
  exists result,
    estimate no_scale (196 / 100) [lone_response] "satisfaction" lone_design
    = inr result /\
    mean result = Finite 4 /\
    standardError result = Finite 0 /\
    standardError result <> NaN /\
    confidenceInterval result = (mean result, mean result) /\
    sampleSize result = 1%nat.
Proof.
  apply single_respondent_estimate.
  - reflexivity.
  - right. split; [reflexivity|].
    exists "age_group", "18-25", 1. repeat split.
    unfold tolerance. rewrite Rminus_diag, Rabs_R0. lra.
Defined.

End EstimatorProofs.

(* ===================================================================== *)
(** * Properties of the adaptive selector *)
(* ===================================================================== *)

Module SelectorProofs.
Import AdaptiveSelector.

Section Transition.
Variable graph : FieldGraph.
Variable responses : list Response.

(** [first_match] finds nothing exactly when every rule fails. *)
Lemma first_match_none position rs :
  first_match position rs responses = None <-> Forall (fails responses) rs.
Proof.
  revert position. induction rs as [|r rest IH]; intros position; simpl.
  - split; [constructor | reflexivity].
  - destruct (holds (predicate r) responses) eqn:E.
    + split; [discriminate|]. intros H. inversion H; congruence.
    + rewrite IH. split; [now constructor | intros H; now inversion H].
Qed.

(** [first_match] finds the first rule that holds, and counts the rules
    it passed over. *)
Lemma first_match_some position before r after :
  Forall (fails responses) before ->
  holds (predicate r) responses = true ->
  first_match position (before ++ r :: after) responses
  = Some ((position + length before)%nat, target r).
Proof.
  revert position. induction before as [|b rest IH]; intros position Hb Hr; simpl.
  - rewrite Hr. do 2 f_equal. lia.
  - inversion Hb as [|? ? Hb1 Hb2]; subst. rewrite Hb1.
    rewrite IH by assumption. do 2 f_equal. lia.
Qed.

Lemma first_match_split position rs k next :
  first_match position rs responses = Some (k, next) ->
  exists before r after,
    rs = (before ++ r :: after)%list /\ Forall (fails responses) before /\
    holds (predicate r) responses = true /\
    k = (position + length before)%nat /\ next = target r.
Proof.
  revert position. induction rs as [|r rest IH]; intros position; simpl;
    [discriminate|].
  destruct (holds (predicate r) responses) eqn:E.
  - intros H. injection H as <- <-.
    exists [], r, rest. repeat split; [constructor | exact E | simpl; lia].
  - intros H. destruct (IH _ H) as (before & r0 & after & -> & Hb & Hr & -> & ->).
    exists (r :: before), r0, after.
    repeat split; [now constructor | exact Hr | simpl; lia].
Qed.

(** The function takes the transition the relation describes. *)
Lemma select_sound current : Selects graph current responses (select graph current responses).
Proof.
  unfold select.
  destruct (node_of current graph) as [n|] eqn:N.
  - destruct (first_match 0 (rules n) responses) as [[k next]|] eqn:F.
    + destruct (first_match_split _ _ _ _ F)
        as (before & r & after & Hrs & Hb & Hr & -> & ->).
      simpl. eapply by_rule; eauto.
    + apply first_match_none in F.
      destruct (successor current graph) as [next|] eqn:S.
      * apply by_order; [|exact S]. intros n' E.
        now replace n' with n by congruence.
      * apply at_end; [|exact S]. intros n' E.
        now replace n' with n by congruence.
  - simpl. destruct (successor current graph) as [next|] eqn:S.
    + apply by_order; [|exact S]. congruence.
    + apply at_end; [|exact S]. congruence.
Qed.

(** The relation allows no other transition. *)
Lemma select_complete current d :
  Selects graph current responses d -> d = select graph current responses.
Proof.
  intros H. unfold select. destruct H as [n before r after N Hrs Hb Hr | next Hn S | Hn S].
  - rewrite N, Hrs, (first_match_some 0 before r after Hb Hr). reflexivity.
  - destruct (node_of current graph) as [n|].
    + rewrite (proj2 (first_match_none 0 (rules n)) (Hn n eq_refl)), S. reflexivity.
    + simpl. now rewrite S.
  - destruct (node_of current graph) as [n|].
    + rewrite (proj2 (first_match_none 0 (rules n)) (Hn n eq_refl)), S. reflexivity.
    + simpl. now rewrite S.
Qed.

End Transition.

(** ** Replay *)

Lemma replay_from_length graph log :
  forall position seen, length (replay_from graph position seen log) = length log.
Proof.
  induction log as [|r rest IH]; intros position seen; simpl; [reflexivity|].
  destruct position; simpl; now rewrite IH.
Qed.

(** The decisions over a prefix of the log do not depend on what the log
    holds after it. *)
Lemma replay_from_prefix graph log rest :
  forall position seen,
    take (length log) (replay_from graph position seen (log ++ rest))
    = replay_from graph position seen log.
Proof.
  induction log as [|r log' IH]; intros position seen; simpl.
  - now rewrite take_0.
  - destruct position; simpl; now rewrite IH.
Qed.

(** C7. The transition of the selector is a function of the Field graph,
    the current field and the accumulated responses: the relation read off
    the spec admits the decision that [select] computes and no other.
    Replaying a log gives one decision per response, and the decisions
    over a prefix of the log are the same whatever follows the prefix. *)
Theorem selector_replay_determinism
        (graph : FieldGraph) (current : string) (responses : list Response) :
  Selects graph current responses (select graph current responses) /\
  (forall d1 d2,
     Selects graph current responses d1 ->
     Selects graph current responses d2 -> d1 = d2) /\
  (forall log, length (replay graph log) = length log) /\
  (forall log rest1 rest2,
     take (length log) (replay graph (log ++ rest1)) = replay graph log /\
     take (length log) (replay graph (log ++ rest1))
     = take (length log) (replay graph (log ++ rest2))).
Proof.
  split; [apply select_sound|]. split; [|split].
  - intros d1 d2 H1 H2.
    rewrite (select_complete _ _ _ _ H1). symmetry.
    apply select_complete, H2.
  - intros log. apply replay_from_length.
  - intros log rest1 rest2. unfold replay.
    now rewrite !replay_from_prefix.
Qed.

(** [example_graph] and [example_log], run through
    [selector_replay_determinism]: the low rating leads to the follow-up,
    after which the survey is complete; any decision the relation admits
    at the first step is that one. *)
Lemma selector_replay_determinism_witness :
  replay example_graph example_log
  = [ {| nextFieldId := Some "follow_up"; reasoning := RuleMatched 1;
         surveyComplete := false |};
      terminal ] /\
  (forall d, Selects example_graph "satisfaction" [("satisfaction", ANum 2)] d ->
             d = {| nextFieldId := Some "follow_up"; reasoning := RuleMatched 1;
                    surveyComplete := false |}) /\
  take 1 (replay example_graph (("satisfaction", ANum 2) :: [("age_group", AText "18-25")]))
  = take 1 (replay example_graph example_log).
Proof.
  pose proof (selector_replay_determinism example_graph "satisfaction"
                [("satisfaction", ANum 2)]) as (Hsel & Hfun & _ & Hpre).
  split; [reflexivity|]. split.
  - intros d Hd. exact (Hfun _ _ Hd Hsel).
  - exact (proj2 (Hpre [("satisfaction", ANum 2)]
                       [("age_group", AText "18-25")]
                       [("follow_up", AText "slow delivery")])).
Defined.

End SelectorProofs.

(* ===================================================================== *)
(** * Further properties of the query panel *)
(* ===================================================================== *)

Module QueryExtras.
Import Js NaturalLanguageQuery SqlText QueryProofs.

(** ** Trimming does not change what a question contains *)

Lemma toLowerCase_trimStart s :
  toLowerCase (trimStart s) = trimStart (toLowerCase s).
Proof.
  induction s as [|c t IH]; simpl; [reflexivity|].
  rewrite is_white_lower_char. now destruct (is_white c).
Qed.

Lemma toLowerCase_trimEnd s :
  toLowerCase (trimEnd s) = trimEnd (toLowerCase s).
Proof.
  induction s as [|c t IH]; simpl; [reflexivity|].
  rewrite <- IH, is_white_lower_char.
  destruct (trimEnd t); simpl; [now destruct (is_white c) | reflexivity].
Qed.

Lemma toLowerCase_trim s : toLowerCase (trim s) = trim (toLowerCase s).
Proof. unfold trim. now rewrite toLowerCase_trimEnd, toLowerCase_trimStart. Qed.

Lemma includes_trimStart s search :
  visible_start search = true ->
  includes (trimStart s) search = includes s search.
Proof.
  destruct search as [|a k]; [discriminate|]. simpl. intros Ha.
  apply negb_true_iff in Ha.
  induction s as [|c t IH]; [reflexivity|].
  simpl trimStart. destruct (is_white c) eqn:Hc; [|reflexivity].
  rewrite IH. simpl. now rewrite (ascii_eqb_white a c Ha Hc).
Qed.

Lemma startsWith_nil search :
  startsWith EmptyString search = falsy search.
Proof. now destruct search. Qed.

Lemma startsWith_empty s : startsWith s EmptyString = true.
Proof. now destruct s. Qed.

Lemma visible_end_not_empty search : visible_end search = true -> falsy search = false.
Proof. now destruct search. Qed.

Lemma startsWith_trimEnd s : forall search,
  visible_end search = true ->
  startsWith (trimEnd s) search = startsWith s search.
Proof.
  induction s as [|c t IH]; intros [|a k] Hv; try reflexivity; try discriminate.
  simpl trimEnd. simpl startsWith at 2.
  destruct k as [|b k'].
  - (* the search string is the one visible character [a] *)
    simpl in Hv. apply negb_true_iff in Hv. rewrite startsWith_empty.
    destruct (trimEnd t); [|simpl; now destruct (Ascii.eqb a c)].
    destruct (is_white c) eqn:Hc; simpl.
    + now rewrite (ascii_eqb_white a c Hv Hc).
    + now destruct (Ascii.eqb a c).
  - assert (Hk : visible_end (String b k') = true) by exact Hv.
    specialize (IH _ Hk).
    destruct (trimEnd t) as [|d t'] eqn:E.
    + rewrite startsWith_nil in IH. simpl in IH. rewrite <- IH.
      destruct (is_white c); simpl; now destruct (Ascii.eqb a c).
    + simpl. destruct (Ascii.eqb a c); [exact IH | reflexivity].
Qed.

Lemma includes_nil search : includes EmptyString search = falsy search.
Proof. now destruct search. Qed.

Lemma includes_trimEnd s search :
  visible_end search = true ->
  includes (trimEnd s) search = includes s search.
Proof.
  intros Hv. pose proof (visible_end_not_empty _ Hv) as Hne.
  induction s as [|c t IH]; [reflexivity|].
  pose proof (startsWith_trimEnd (String c t) search Hv) as Hs.
  change (includes (String c t) search)
    with (startsWith (String c t) search || includes t search).
  rewrite <- Hs, <- IH. clear Hs IH.
  simpl trimEnd. destruct (trimEnd t) as [|d t'].
  - rewrite includes_nil, Hne, orb_false_r.
    destruct (is_white c).
    + now destruct search.
    + destruct search; [discriminate|]. simpl. now rewrite orb_false_r.
  - reflexivity.
Qed.

Lemma includes_trim s search :
  visible_start search = true -> visible_end search = true ->
  includes (trim s) search = includes s search.
Proof.
  intros Hs He. unfold trim.
  now rewrite includes_trimEnd, includes_trimStart.
Qed.

Lemma keyword_tests_trim q :
  has_average (trim q) = has_average q /\
  has_count (trim q) = has_count q /\
  has_top (trim q) = has_top q.
Proof.
  unfold has_average, has_count, has_top.
  rewrite toLowerCase_trim, !includes_trim by reflexivity. auto.
Qed.

Lemma generateMockSQL_trim q : generateMockSQL (trim q) = generateMockSQL q.
Proof.
  destruct (keyword_tests_trim q) as (Ha & Hc & Ht).
  unfold generateMockSQL.
  fold (has_average q) (has_count q) (has_top q).
  fold (has_average (trim q)) (has_count (trim q)) (has_top (trim q)).
  now rewrite Ha, Hc, Ht.
Qed.

Lemma generateMockResults_trim q s :
  generateMockResults (trim q) s = generateMockResults q s.
Proof.
  destruct (keyword_tests_trim q) as (Ha & Hc & _).
  unfold generateMockResults.
  fold (has_average q) (has_count q).
  fold (has_average (trim q)) (has_count (trim q)).
  now rewrite Ha, Hc.
Qed.

(** X1. The history shows the trimmed question while the SQL text and the
    results are computed from the text as typed (lines 69, 82 and 83).
    The two never disagree: trimming a question changes neither its SQL
    text nor its results, so each entry carries the SQL text of the
    question it displays. *)
Theorem trimmed_question_same_answer (q : string) (s : RandomSource) :
  generateMockSQL (trim q) = generateMockSQL q /\
  generateMockResults (trim q) s = generateMockResults q s /\
  forall now stamp st st1 p,
    st_query st = q ->
    handleSubmit_begin now stamp st = (st1, Some p) ->
    generateMockSQL (submitted p) = generateMockSQL (query (newQuery p)).
Proof.
  split; [apply generateMockSQL_trim|]. split; [apply generateMockResults_trim|].
  intros now stamp st st1 p Hq. unfold handleSubmit_begin.
  destruct (falsy (trim (st_query st))); [discriminate|].
  intros E. injection E as _ <-. simpl. now rewrite generateMockSQL_trim.
Qed.

(** ** The results table *)

Lemma generateMockResults_cases q s :
  fst (generateMockResults q s) = results_average \/
  fst (generateMockResults q s)
  = {| data := [ [("total_count", JNum (inject_Z (floor_times (s 0%nat) 1000 + 100)))] ];
       count := 1 |} \/
  fst (generateMockResults q s)
  = {| data := map (fun i =>
                 [ ("id", JNum (inject_Z (Z.of_nat i + 1)));
                   ("value", JStr ("Sample data " ++ number_to_string (Z.of_nat i + 1)));
                   ("score", JNum (inject_Z (floor_times (s i) 5 + 1))) ])
               (seq 0 5);
       count := 5 |}.
Proof.
  unfold generateMockResults.
  destruct (_ || _); [now left|].
  destruct (_ || _); [right; now left|]. right; right.
  unfold bind, ret.
  pose proof (Array_from_sample_rows s) as E.
  destruct (Array_from 5 sample_row s) as [rows t]. simpl in *. now subst rows.
Qed.

(** X2. Whatever the question and the draws, the results that
    [generateMockResults] returns make a well-formed table for the card:
    [count] is the number of rows, there is at least one row, and every
    row has one cell per header cell, its keys being those of the first
    row, from which the header is built. *)
Theorem results_table_is_rectangular (q : string) (s : RandomSource) :
  let r := fst (generateMockResults q s) in
  count r = Z.of_nat (length (data r)) /\
  data r <> [] /\
  length (table_cells r) = length (data r) /\
  Forall (fun cells => length cells = length (table_headers r)) (table_cells r) /\
  Forall (fun row => map (fun kv => replace_underscores (fst kv)) row
                     = table_headers r) (data r).
Proof.
  cbv zeta.
  destruct (generateMockResults_cases q s) as [-> | [-> | ->]];
    (split; [reflexivity|]); (split; [discriminate|]);
    (split; [reflexivity|]); split; repeat constructor.
Qed.

(** X3. With draws in the range of [Math.random], every number of a
    result is in the range its column promises: a total count from 100 to
    1099, ids and scores from 1 to 5, average scores from 4 to 5. *)
Theorem mock_values_in_range (q : string) (s : RandomSource) :
  (forall n, 0 <= s n < 2 ^ 53) ->
  forall row key v,
    In row (data (fst (generateMockResults q s))) ->
    In (key, JNum v) row ->
    (key = "total_count" /\ (100 <= v <= 1099)%Q) \/
    (key = "id" /\ (1 <= v <= 5)%Q) \/
    (key = "score" /\ (1 <= v <= 5)%Q) \/
    (key = "average_score" /\ (4 <= v <= 5)%Q).
Proof.
  intros Hs row key v Hrow Hcell.
  assert (Hq : forall a b n, a <= n <= b ->
             (inject_Z a <= inject_Z n <= inject_Z b)%Q).
  { intros a b n [? ?]. split; unfold Qle; simpl; lia. }
  destruct (generateMockResults_cases q s) as [E | [E | E]];
    rewrite E in Hrow; cbn [data results_average map seq In] in Hrow.
  - destruct Hrow as [<- | [<- | [<- | []]]];
      destruct Hcell as [H | [H | []]]; try discriminate H;
      injection H as <- <-; right; right; right; (split; [reflexivity|]);
      split; unfold Qle; simpl; lia.
  - destruct Hrow as [<- | []].
    destruct Hcell as [H | []]. injection H as <- <-.
    left. split; [reflexivity|].
    apply (Hq 100 1099), total_count_range, Hs.
  - destruct Hrow as [<- | [<- | [<- | [<- | [<- | []]]]]];
      destruct Hcell as [H | [H | [H | []]]]; try discriminate H;
      injection H as <- <-; right.
    all: try (left; split; [reflexivity|]; split; unfold Qle; simpl; lia).
    all: right; left; split; [reflexivity|]; apply (Hq 1 5), score_range, Hs.
Qed.

(** A count question whose first draw is the largest one, run through
    [mock_values_in_range]: the total count is 1099, within its range. *)
Lemma mock_values_in_range_witness :
  data (fst (generateMockResults "count the answers"
               (source_of_list [2 ^ 53 - 1; 0; 12345])))
  = [ [("total_count", JNum 1099)] ] /\
  (100 <= 1099 <= 1099)%Q.
Proof.
  split; [reflexivity|].
  assert (Hs : forall n, 0 <= source_of_list [2 ^ 53 - 1; 0; 12345] n < 2 ^ 53).
  { intros n. unfold source_of_list.
    do 3 (destruct n as [|n]; [simpl; lia|]). destruct n; simpl; lia. }
  destruct (mock_values_in_range "count the answers" _ Hs
              [("total_count", JNum 1099)] "total_count" 1099
              (or_introl eq_refl) (or_introl eq_refl))
    as [[_ H] | [[E _] | [[E _] | [E _]]]]; [exact H | discriminate E..].
Defined.

(** ** The two mock functions side by side *)

Lemma generateMockResults_tests q q' s :
  has_average q = has_average q' -> has_count q = has_count q' ->
  generateMockResults q s = generateMockResults q' s.
Proof.
  intros Ha Hc. unfold generateMockResults.
  fold (has_average q) (has_count q) (has_average q') (has_count q').
  now rewrite Ha, Hc.
Qed.

(** X4. [generateMockResults] has no branch for the top and most
    keywords: a question that reaches the top branch of [generateMockSQL]
    gets the rows of a question without keywords.  Its SQL text selects
    [item] and [frequency], while the table shows the columns id, value
    and score, none of which the SQL text names. *)
Theorem top_question_gets_default_rows (q : string) (s : RandomSource) :
  has_average q = false -> has_count q = false -> has_top q = true ->
  generateMockSQL q = sql_top /\
  generateMockResults q s = generateMockResults "" s /\
  table_headers (fst (generateMockResults q s)) = ["id"; "value"; "score"] /\
  (forall h, In h (table_headers (fst (generateMockResults q s))) ->
             mentions (generateMockSQL q) h = false) /\
  mentions (generateMockSQL q) "item" = true /\
  mentions (generateMockSQL q) "frequency" = true.
Proof.
  intros Ha Hc Ht.
  assert (Hsql : generateMockSQL q = sql_top).
  { unfold generateMockSQL.
    fold (has_average q) (has_count q) (has_top q). now rewrite Ha, Hc, Ht. }
  assert (Hres : generateMockResults q s = generateMockResults "" s)
    by (apply generateMockResults_tests; [rewrite Ha | rewrite Hc]; reflexivity).
  rewrite Hsql, Hres.
  split; [reflexivity|]. split; [reflexivity|].
  assert (Hh : table_headers (fst (generateMockResults "" s))
               = ["id"; "value"; "score"]).
  { destruct (generateMockResults_cases "" s) as [E | [E | E]];
      [| |now rewrite E].
    - apply (f_equal count) in E.
      destruct (generateMockResults_shape "" s (constant_source 0)) as [Hn _].
      rewrite Hn in E. discriminate E.
    - apply (f_equal count) in E.
      destruct (generateMockResults_shape "" s (constant_source 0)) as [Hn _].
      rewrite Hn in E. discriminate E. }
  rewrite Hh. split; [reflexivity|]. split; [|split; reflexivity].
  intros h [<- | [<- | [<- | []]]]; reflexivity.
Qed.

(** A question about the top products, run through
    [top_question_gets_default_rows]. *)
Lemma top_question_gets_default_rows_witness :
  generateMockSQL "top products by region" = sql_top /\
  table_headers (fst (generateMockResults "top products by region"
                        (constant_source 0)))
  = ["id"; "value"; "score"].
Proof.
  destruct (top_question_gets_default_rows "top products by region"
              (constant_source 0) eq_refl eq_refl eq_refl)
    as (Hsql & _ & Hh & _).
  exact (conj Hsql Hh).
Defined.

(** ** Whole submissions *)

Lemma complete_update_fresh new_id mockSQL mockResults prev :
  Forall (fun e => id e <> new_id) prev ->
  complete_update new_id mockSQL mockResults prev = prev.
Proof.
  intros H. unfold complete_update.
  induction H as [|e rest He _ IH]; simpl; [reflexivity|].
  apply Z.eqb_neq in He. now rewrite He, IH.
Qed.

(** X5. A submission of a question that is not blank, at a clock reading
    that is the id of no entry of the history, and with nothing
    interleaved: the input box is emptied, the loading flag is down again,
    the selection is kept, and the history is the one before with one
    entry in front, completed, which holds the trimmed question, its SQL
    text and its results. *)
Theorem submission_adds_completed_entry
        (now stamp : Z) (st : State) (s : RandomSource) :
  blank (st_query st) = false ->
  Forall (fun e => id e <> now) (st_queries st) ->
  fst (handleSubmit now stamp st s)
  = {| st_query := "";
       st_queries :=
         {| id := now; query := trim (st_query st); status := "completed";
            timestamp := stamp;
            sql := Some (generateMockSQL (trim (st_query st)));
            results := Some (fst (generateMockResults (trim (st_query st)) s));
            error := None |} :: st_queries st;
       st_isLoading := false;
       st_selectedQuery := st_selectedQuery st |}.
Proof.
  intros Hb Hfresh. unfold handleSubmit, handleSubmit_begin.
  rewrite falsy_trim, Hb.
  unfold handleSubmit_resolve, bind, ret. simpl.
  rewrite generateMockSQL_trim, generateMockResults_trim.
  destruct (generateMockResults (st_query st) s) as [mockResults s'].
  simpl. rewrite Z.eqb_refl.
  now rewrite (complete_update_fresh _ _ _ _ Hfresh).
Qed.

(** A count question typed with spaces around it over the loaded history,
    run through [submission_adds_completed_entry]. *)
Lemma submission_adds_completed_entry_witness :
  st_queries (fst (handleSubmit 1700000005000 1700000005001
                     {| st_query := "  count the answers ";
                        st_queries := loaded; st_isLoading := false;
                        st_selectedQuery := None |}
                     (constant_source 0)))
  = {| id := 1700000005000; query := "count the answers";
       status := "completed"; timestamp := 1700000005001;
       sql := Some sql_count;
       results := Some {| data := [ [("total_count", JNum 100)] ]; count := 1 |};
       error := None |} :: loaded.
Proof.
  rewrite (submission_adds_completed_entry 1700000005000 1700000005001
             {| st_query := "  count the answers ";
                st_queries := loaded; st_isLoading := false;
                st_selectedQuery := None |}
             (constant_source 0) eq_refl).
  - reflexivity.
  - repeat constructor; discriminate.
Defined.

(** X6. The updates of two submissions with different ids commute,
    whether each completes or fails: overlapping submissions leave the
    same history in whichever order they finish. *)
Theorem updates_of_different_ids_commute
        (a b : Z) (sqlA sqlB : string) (resA resB : QueryResults)
        (prev : list QueryEntry) :
  a <> b ->
  complete_update a sqlA resA (complete_update b sqlB resB prev)
  = complete_update b sqlB resB (complete_update a sqlA resA prev) /\
  complete_update a sqlA resA (fail_update b prev)
  = fail_update b (complete_update a sqlA resA prev) /\
  fail_update a (fail_update b prev) = fail_update b (fail_update a prev).
Proof.
  intros Hab. unfold complete_update, fail_update.
  rewrite !map_map.
  repeat split; apply map_ext; intros e;
    destruct (Z.eqb_spec (id e) a), (Z.eqb_spec (id e) b); simpl;
    try congruence;
    repeat match goal with
           | |- context [?x =? ?y] =>
               destruct (Z.eqb_spec x y); try congruence
           end.
Qed.

(** Two submissions over the loaded history, finishing in either order,
    run through [updates_of_different_ids_commute]. *)
Lemma updates_of_different_ids_commute_witness :
  let pending :=
    {| id := 20; query := "a"; status := "processing"; timestamp := 0;
       sql := None; results := None; error := None |}
    :: {| id := 10; query := "b"; status := "processing"; timestamp := 0;
          sql := None; results := None; error := None |} :: loaded in
  complete_update 10 sql_count results_average (fail_update 20 pending)
  = fail_update 20 (complete_update 10 sql_count results_average pending).
Proof.
  exact (proj1 (proj2 (updates_of_different_ids_commute 10 20 sql_count sql_count
           results_average results_average _ ltac:(discriminate)))).
Defined.

(** ** Relative timestamps *)

(** X7. [formatTimestamp] on the age of an entry, [now - timestamp] in
    milliseconds, for time values of a Date whose difference is below
    [2^53] = 9007199254740992 in absolute value, where the arithmetic of
    line 153 is exact: below one hour it gives the whole minutes of the
    age, from 0 to 59; from one hour and below one day the whole hours,
    from 1 to 23; from one day on the locale date of the entry.  An entry
    dated after [now] is not rejected: it gets a negative number of
    minutes. *)
Theorem formatTimestamp_regimes
        (toLocaleDateString : Z -> string) (now timestamp : Z) :
  - 8640000000000000 <= now <= 8640000000000000 ->
  - 8640000000000000 <= timestamp <= 8640000000000000 ->
  - 9007199254740992 < now - timestamp < 9007199254740992 ->
  let age := now - timestamp in
  (0 <= age < 3600000 ->
   exists m, 0 <= m <= 59 /\ 60000 * m <= age < 60000 * (m + 1) /\
     formatTimestamp toLocaleDateString now timestamp
     = number_to_string m ++ " minutes ago") /\
  (3600000 <= age < 86400000 ->
   exists h, 1 <= h <= 23 /\ 3600000 * h <= age < 3600000 * (h + 1) /\
     formatTimestamp toLocaleDateString now timestamp
     = number_to_string h ++ " hours ago") /\
  (86400000 <= age ->
   formatTimestamp toLocaleDateString now timestamp
   = toLocaleDateString timestamp) /\
  (age < 0 ->
   exists m, m < 0 /\ 60000 * m <= age < 60000 * (m + 1) /\
     formatTimestamp toLocaleDateString now timestamp
     = number_to_string m ++ " minutes ago").
Proof.
  intros _ _ _.
  cbv zeta. unfold formatTimestamp.
  change (1000 * 60) with 60000.
  set (age := now - timestamp).
  pose proof (Z.div_mod age 60000 ltac:(lia)) as Hd.
  pose proof (Z.mod_pos_bound age 60000 ltac:(lia)) as Hm.
  set (d := age / 60000) in *.
  repeat split.
  - intros Hage. exists d.
    destruct (Z.ltb_spec d 60); [|lia].
    repeat split; try lia.
  - intros Hage.
    pose proof (Z.div_mod d 60 ltac:(lia)) as Hd'.
    pose proof (Z.mod_pos_bound d 60 ltac:(lia)) as Hm'.
    exists (d / 60).
    destruct (Z.ltb_spec d 60); [lia|].
    destruct (Z.ltb_spec d 1440); [|lia].
    repeat split; try lia.
  - intros Hage.
    destruct (Z.ltb_spec d 60); [lia|].
    destruct (Z.ltb_spec d 1440); [lia|]. reflexivity.
  - intros Hage. exists d.
    destruct (Z.ltb_spec d 60); [|lia].
    repeat split; try lia.
Qed.

(** An entry from two hours ago and an entry dated five seconds ahead of
    the clock, run through [formatTimestamp_regimes]. *)
Lemma formatTimestamp_regimes_witness :
  formatTimestamp (fun _ => "1/1/2024") 1700000000000 (1700000000000 - 7200000)
  = "2 hours ago" /\
  formatTimestamp (fun _ => "1/1/2024") 1700000000000 1700000005000
  = "-1 minutes ago".
Proof.
  destruct (formatTimestamp_regimes (fun _ => "1/1/2024") 1700000000000
              (1700000000000 - 7200000) ltac:(lia) ltac:(lia) ltac:(lia))
    as (_ & Hh & _).
  destruct (formatTimestamp_regimes (fun _ => "1/1/2024") 1700000000000
              1700000005000 ltac:(lia) ltac:(lia) ltac:(lia))
    as (_ & _ & _ & Hf).
  split.
  - destruct (Hh ltac:(lia)) as (h & _ & _ & E). now rewrite E.
  - destruct (Hf ltac:(lia)) as (m & _ & _ & E). now rewrite E.
Defined.

(** ** What the cards can show *)

Lemma generateMockSQL_not_empty q : falsy (generateMockSQL q) = false.
Proof. apply generateMockSQL_ind; reflexivity. Qed.

Lemma mockQueries_ok now1 now2 now3 : Forall entry_ok (mockQueries now1 now2 now3).
Proof. repeat constructor; right; left; repeat split. Qed.

Lemma completed_ok mockSQL mockResults e :
  falsy mockSQL = false -> entry_ok (completed mockSQL mockResults e).
Proof.
  intros H. right; left. unfold shows_sql. simpl. rewrite H. repeat split.
Qed.

Lemma failed_ok e : entry_ok (failed e).
Proof. right; right. split; reflexivity. Qed.

(** X8. The history only ever holds entries whose parts agree with their
    status, whichever handlers ran and in whatever order they finished:
    the loaded entries are such, and submitting, completing and failing
    keep all entries such.  For such an entry the card never falls back to
    the grey badge of an unknown status, and while it shows the spinner it
    shows no SQL text, no table and no error. *)
Theorem history_entries_stay_well_formed :
  (forall now1 now2 now3 st,
     Forall entry_ok (st_queries (mount now1 now2 now3 st))) /\
  (forall now stamp st,
     Forall entry_ok (st_queries st) ->
     Forall entry_ok (st_queries (fst (handleSubmit_begin now stamp st)))) /\
  (forall p later s,
     Forall entry_ok (st_queries later) ->
     Forall entry_ok (st_queries (fst (handleSubmit_resolve p later s)))) /\
  (forall p later,
     Forall entry_ok (st_queries later) ->
     Forall entry_ok (st_queries (handleSubmit_reject p later))) /\
  (forall e,
     entry_ok e ->
     getStatusColor (status e) <> "bg-gray-100 text-gray-800" /\
     (shows_spinner e = true ->
      shows_sql e = false /\ shows_results e = false /\ shows_error e = false)).
Proof.
  split; [|split; [|split; [|split]]].
  - intros. apply mockQueries_ok.
  - intros now stamp st H. unfold handleSubmit_begin.
    destruct (falsy (trim (st_query st))); [exact H|].
    simpl. constructor; [|exact H]. left. repeat split.
  - intros p later s H. rewrite handleSubmit_resolve_queries.
    unfold complete_update. rewrite List.Forall_map.
    eapply List.Forall_impl; [|exact H]. intros e He. simpl.
    destruct (id e =? id (newQuery p)); [|exact He].
    apply completed_ok, generateMockSQL_not_empty.
  - intros p later H. unfold handleSubmit_reject, fail_update. simpl.
    rewrite List.Forall_map.
    eapply List.Forall_impl; [|exact H]. intros e He. simpl.
    destruct (id e =? id (newQuery p)); [apply failed_ok | exact He].
  - intros e [(Hs & Hq & Hr & He) | [(Hs & _) | (Hs & _)]];
      unfold shows_spinner, shows_sql, shows_results, shows_error;
      rewrite Hs; (split; [discriminate|]).
    + intros _. now rewrite Hq, Hr, He.
    + discriminate.
    + discriminate.
Qed.

End QueryExtras.



(* ===================================================================== *)
(** * Further properties of the survey builder *)
(* ===================================================================== *)

Module BuilderExtras.
Import Js SurveyBuilder BuilderProofs.

(** ** Dragging *)

Lemma splice_insert_length {A} (i : nat) (x : A) arr :
  length (splice_insert i x arr) = S (length arr).
Proof.
  unfold splice_insert. rewrite length_app. simpl.
  rewrite length_take, length_drop. lia.
Qed.

Lemma splice_insert_lookup {A} (i : nat) (x : A) arr :
  splice_insert i x arr !! (Nat.min i (length arr)) = Some x.
Proof.
  unfold splice_insert.
  rewrite lookup_app_r by (rewrite length_take; lia).
  rewrite length_take, Nat.sub_diag. reflexivity.
Qed.

Lemma splice_insert_delete {A} (i : nat) (x : A) arr :
  delete (Nat.min i (length arr)) (splice_insert i x arr) = arr.
Proof.
  unfold splice_insert.
  rewrite <- length_take, delete_middle.
  apply take_drop.
Qed.

Lemma splice_insert_perm {A} (i : nat) (x : A) arr :
  splice_insert i x arr ≡ₚ x :: arr.
Proof.
  unfold splice_insert. rewrite <- Permutation_middle.
  now rewrite take_drop.
Qed.

(** X9. Dropping entry [i] of the palette at position [j] of the survey
    inserts exactly one field, the new one, at position [j] or at the end
    when [j] is past it; taking that position out again gives the fields
    as they were, in their order.  The selection is kept.  A palette index
    that names no entry changes nothing. *)
Theorem palette_drop_inserts_one_field
        (now : Z) (i j : nat) (st : State) :
  let st' := handleDragEnd now (palette_drop i j) st in
  (forall fieldType,
     FIELD_TYPES !! i = Some fieldType ->
     length (fields st') = S (length (fields st)) /\
     fields st' !! (Nat.min j (length (fields st)))
     = Some (Some (newField now fieldType)) /\
     delete (Nat.min j (length (fields st))) (fields st') = fields st /\
     selectedField st' = selectedField st) /\
  (FIELD_TYPES !! i = None -> st' = st).
Proof.
  cbv zeta. unfold handleDragEnd, palette_drop. simpl. split.
  - intros fieldType ->. simpl.
    split; [apply splice_insert_length|].
    split; [apply splice_insert_lookup|].
    split; [apply splice_insert_delete | reflexivity].
  - now intros ->.
Qed.

(** A checkbox field dropped past the end of a one-field survey, run
    through [palette_drop_inserts_one_field]: it lands at the end. *)
Lemma palette_drop_inserts_one_field_witness :
  let st := handleDragEnd 5 (palette_drop 0 0) initialState in
  fields (handleDragEnd 6 (palette_drop 6 9) st) !! 1%nat
  = Some (Some (newField 6 (mkFieldType "checkbox" "Checkboxes"))).
Proof.
  exact (proj1 (proj2 (proj1 (palette_drop_inserts_one_field 6 6 9
           (handleDragEnd 5 (palette_drop 0 0) initialState))
           (mkFieldType "checkbox" "Checkboxes") eq_refl))).
Defined.

(** X10. Moving the field at position [i] of the survey to position [j]
    rearranges the fields and loses none: the result is a permutation of
    the fields, the moved field is at position [j], or last when [j] is
    past the end, and a move onto its own position changes nothing.  A
    source position past the end takes nothing out, yet still inserts:
    the array grows by one [undefined] slot. *)
Theorem survey_move_permutes (now : Z) (i j : nat) (st : State) :
  let st' := handleDragEnd now (survey_move i j) st in
  ((i < length (fields st))%nat ->
   fields st' ≡ₚ fields st /\
   length (fields st') = length (fields st) /\
   fields st' !! (Nat.min j (length (fields st) - 1)) = fields st !! i /\
   (j = i -> st' = st)) /\
  ((length (fields st) <= i)%nat ->
   fields st' = splice_insert j None (fields st)).
Proof.
  cbv zeta. unfold handleDragEnd, survey_move, splice_remove. simpl. split.
  - intros Hi.
    destruct (lookup_lt_is_Some_2 _ _ Hi) as [x Hx]. rewrite Hx. simpl.
    pose proof (take_drop_middle _ _ _ Hx) as Hmid.
    assert (Hlen : length (take i (fields st) ++ drop (S i) (fields st))
                   = (length (fields st) - 1)%nat).
    { rewrite length_app, length_take, length_drop. lia. }
    split; [|split; [|split]].
    + etrans; [apply splice_insert_perm|].
      etrans; [apply Permutation_middle|]. now rewrite Hmid.
    + rewrite splice_insert_length, Hlen. lia.
    + rewrite <- Hlen. apply splice_insert_lookup.
    + intros ->. destruct st as [fs sel]. unfold set_fields. simpl in *.
      f_equal. unfold splice_insert.
      rewrite take_app_le by (rewrite length_take; lia).
      rewrite take_take, Nat.min_id.
      rewrite drop_app_ge by (rewrite length_take; lia).
      rewrite length_take, Nat.min_l by lia.
      rewrite Nat.sub_diag. simpl. exact Hmid.
  - intros Hi. rewrite (lookup_ge_None_2 _ _ Hi). simpl.
    rewrite take_ge, drop_ge by lia. now rewrite app_nil_r.
Qed.

(** The first of three fields moved to the end, run through
    [survey_move_permutes]. *)
Lemma survey_move_permutes_witness :
  let st := handleDragEnd 3 (palette_drop 2 0)
              (handleDragEnd 2 (palette_drop 1 0)
                 (handleDragEnd 1 (palette_drop 0 0) initialState)) in
  fields (handleDragEnd 9 (survey_move 0 7) st) !! 2%nat = fields st !! 0%nat /\
  fields st !! 0%nat = Some (Some (newField 3 (mkFieldType "number" "Number"))).
Proof.
  split; [|reflexivity].
  exact (proj1 (proj2 (proj2 (proj1 (survey_move_permutes 9 0 7
           (handleDragEnd 3 (palette_drop 2 0)
              (handleDragEnd 2 (palette_drop 1 0)
                 (handleDragEnd 1 (palette_drop 0 0) initialState))))
           ltac:(simpl; lia))))).
Defined.

(** ** Arrays without [undefined] *)

Lemma all_defined_fields st :
  all_defined st -> exists fs : list Field, fields st = Some <$> fs.
Proof.
  unfold all_defined. generalize (fields st) as arr.
  induction arr as [|[x|] rest IH]; intros H.
  - now exists [].
  - inversion H; subst. destruct (IH ltac:(assumption)) as [fs ->].
    now exists (x :: fs).
  - inversion H; subst. congruence.
Qed.

Lemma js_map_defined (g : Field -> Field) (fs : list Field) :
  js_map g (Some <$> fs) = Some (Some <$> (g <$> fs)).
Proof.
  induction fs as [|x rest IH]; [reflexivity|].
  rewrite !fmap_cons. cbn [js_map]. now rewrite IH.
Qed.



Lemma js_map_undefined (g : Field -> Field) arr :
  In None arr -> js_map g arr = None.
Proof.
  induction arr as [|[x|] rest IH]; simpl; intros H; try tauto.
  destruct H as [H|H]; [discriminate|]. now rewrite IH.
Qed.




(** ** Deleting and updating fields *)


Lemma updateField_defined fieldId updates st (fs : list Field) :
  fields st = Some <$> fs ->
  updateField fieldId updates st
  = set_fields (Some <$> ((fun field =>
                             if String.eqb (id field) fieldId
                             then spread field updates else field) <$> fs)) st.
Proof. intros E. unfold updateField. now rewrite E, js_map_defined. Qed.

Lemma updateField_found fieldId updates st field :
  all_defined st ->
  js_find fieldId (fields st) = Some (Some field) ->
  js_find fieldId (fields (updateField fieldId updates st))
  = Some (Some (spread field updates)).
Proof.
  intros Hdef F. destruct (all_defined_fields st Hdef) as [fs Hfs].
  rewrite (updateField_defined _ _ _ _ Hfs).
  unfold set_fields. cbn [fields].
  pose proof (js_find_id _ _ _ F) as Hid.
  rewrite Hfs in F.
  set (g := fun field : Field =>
              if String.eqb (id field) fieldId then spread field updates
              else field).
  assert (Hg : forall x, id (g x) = id x).
  { intros x. unfold g. now destruct (String.eqb (id x) fieldId). }
  rewrite (js_find_js_map g fieldId _ _ field Hg (js_map_defined g fs) F).
  unfold g. now rewrite Hid.
Qed.

(** X12. On an array without [undefined], [updateField] changes nothing
    but the fields with the given id: the array keeps its length, every
    field keeps its position, its id and its type, a field with another id
    is untouched, and a field with the id becomes its spread with the
    updates.  The selected snapshot is not refreshed.  On an array that
    holds [undefined] the callback throws and the state is as before. *)
Theorem updateField_touches_only_its_id
        (fieldId : string) (updates : Updates) (st : State) :
  let st' := updateField fieldId updates st in
  (all_defined st ->
   all_defined st' /\
   length (fields st') = length (fields st) /\
   field_ids st' = field_ids st /\
   forall (i : nat) f,
     fields st !! i = Some (Some f) ->
     exists f',
       fields st' !! i = Some (Some f') /\
       id f' = id f /\ type f' = type f /\
       (id f <> fieldId -> f' = f) /\
       (id f = fieldId -> f' = spread f updates)) /\
  (In None (fields st) -> st' = st) /\
  selectedField st' = selectedField st.
Proof.
  cbv zeta. split; [|split].
  - intros Hdef. destruct (all_defined_fields st Hdef) as [fs Hfs].
    rewrite (updateField_defined _ _ _ _ Hfs). simpl. rewrite Hfs.
    set (g := fun field : Field =>
                if String.eqb (id field) fieldId then spread field updates
                else field).
    assert (Hg : forall x, id (g x) = id x /\ type (g x) = type x).
    { intros x. unfold g. now destruct (String.eqb (id x) fieldId). }
    split; [|split; [|split]].
    + unfold all_defined. simpl. apply Forall_fmap, Forall_true. discriminate.
    + now rewrite !length_fmap.
    + unfold field_ids. simpl. rewrite Hfs. clear Hfs.
      induction fs as [|x rest IH]; [reflexivity|].
      rewrite !fmap_cons. cbn [omap list_omap fmap option_fmap option_map].
      rewrite (proj1 (Hg x)). f_equal. exact IH.
    + intros i f Hi. rewrite list_lookup_fmap in Hi.
      destruct (fs !! i) as [x|] eqn:Hx; [|discriminate].
      injection Hi as ->.
      exists (g f). rewrite !list_lookup_fmap, Hx. simpl.
      split; [reflexivity|]. destruct (Hg f) as [H1 H2].
      split; [exact H1|]. split; [exact H2|]. unfold g.
      destruct (String.eqb_spec (id f) fieldId); split; congruence.
  - intros H. unfold updateField. now rewrite (js_map_undefined _ _ H).
  - unfold updateField. now destruct (js_map _ (fields st)).
Qed.

(** ** Options *)

Lemma filter_index_delete {A} optionIndex (opts : list A) : forall start,
  filter_index optionIndex start opts
  = if (optionIndex <? start)%nat then opts
    else delete (optionIndex - start)%nat opts.
Proof.
  induction opts as [|o rest IH]; intros start; simpl.
  - now destruct (optionIndex <? start)%nat.
  - destruct (Nat.eqb_spec start optionIndex) as [->|Hne].
    + rewrite IH, Nat.ltb_irrefl, Nat.sub_diag.
      destruct (Nat.ltb_spec optionIndex (S optionIndex)); [reflexivity | lia].
    + rewrite IH.
      destruct (Nat.ltb_spec optionIndex start),
               (Nat.ltb_spec optionIndex (S start)); try lia; [reflexivity|].
      replace (optionIndex - start)%nat with (S (optionIndex - S start)) by lia.
      reflexivity.
Qed.

(** X13. When the field found for the id has two options or more and the
    array holds no [undefined], [removeOption] leaves the field with its
    options minus the one at the given index, the others keeping their
    order: one option fewer for an index within the list, the same options
    for an index past its end.  Nothing else of the field changes. *)
Theorem removeOption_removes_one_option
        (fieldId : string) (optionIndex : nat) (st : State)
        (field : Field) (opts : list FieldOption) :
  all_defined st ->
  js_find fieldId (fields st) = Some (Some field) ->
  options field = Some opts ->
  (1 < length opts)%nat ->
  exists field',
    js_find fieldId (fields (removeOption fieldId optionIndex st))
    = Some (Some field') /\
    options field' = Some (delete optionIndex opts) /\
    (id field', type field', label field', required field', validation field')
    = (id field, type field, label field, required field, validation field) /\
    ((optionIndex < length opts)%nat ->
     length (delete optionIndex opts) = (length opts - 1)%nat) /\
    ((length opts <= optionIndex)%nat -> delete optionIndex opts = opts).
Proof.
  intros Hdef F O Hlen. unfold removeOption. rewrite F, O.
  destruct (Nat.ltb_spec 1 (length opts)); [|lia].
  rewrite (updateField_found _ _ _ _ Hdef F).
  eexists. split; [reflexivity|]. simpl.
  rewrite filter_index_delete. simpl. rewrite Nat.sub_0_r.
  split; [reflexivity|]. split; [reflexivity|]. split.
  - intros Hi. rewrite length_delete; [reflexivity|].
    now apply lookup_lt_is_Some_2.
  - intros Hi. rewrite delete_take_drop, take_ge, drop_ge by lia.
    apply app_nil_r.
Qed.

(** X14. When the array holds no [undefined], [updateOption] leaves the
    field found for the id with as many options as before: the option at
    the given index is its spread with the updates, every other option is
    as it was, and an index past the end changes no option. *)
Theorem updateOption_changes_one_option
        (fieldId : string) (optionIndex : nat) (updates : OptionUpdates)
        (st : State) (field : Field) (opts : list FieldOption) :
  all_defined st ->
  js_find fieldId (fields st) = Some (Some field) ->
  options field = Some opts ->
  exists field' opts',
    js_find fieldId (fields (updateOption fieldId optionIndex updates st))
    = Some (Some field') /\
    options field' = Some opts' /\
    length opts' = length opts /\
    opts' !! optionIndex
    = (fun o => spread_option o updates) <$> opts !! optionIndex /\
    (forall j : nat, j <> optionIndex -> opts' !! j = opts !! j) /\
    ((length opts <= optionIndex)%nat -> opts' = opts).
Proof.
  intros Hdef F O. unfold updateOption. rewrite F, O.
  rewrite (updateField_found _ _ _ _ Hdef F).
  eexists _, _. split; [reflexivity|]. simpl. split; [reflexivity|].
  split; [apply length_imap|].
  assert (Hl : forall j : nat,
             imap (fun index option =>
                     if Nat.eqb index optionIndex
                     then spread_option option updates else option) opts !! j
             = (fun o => if Nat.eqb j optionIndex
                         then spread_option o updates else o) <$> opts !! j)
    by (intros j; apply list_lookup_imap).
  split; [|split].
  - rewrite Hl, Nat.eqb_refl. reflexivity.
  - intros j Hj. rewrite Hl. apply Nat.eqb_neq in Hj. rewrite Hj.
    now destruct (opts !! j).
  - intros Hi. apply list_eq. intros j. rewrite Hl.
    destruct (opts !! j) as [o|] eqn:Hj; [|reflexivity]. simpl.
    apply lookup_lt_Some in Hj.
    destruct (Nat.eqb_spec j optionIndex); [lia | reflexivity].
Qed.

(** Two options of the dropdown of [two_options], the first removed, run
    through [removeOption_removes_one_option]. *)
Lemma removeOption_removes_one_option_witness :
  exists field',
    js_find "field_1700000000000"
            (fields (removeOption "field_1700000000000" 0 two_options))
    = Some (Some field') /\
    options field' = Some [ {| value := "option2"; o_label := "Option 2" |} ].
Proof.
  assert (Hdef : all_defined two_options) by (repeat constructor; discriminate).
  destruct (removeOption_removes_one_option "field_1700000000000" 0 two_options
              _ _ Hdef eq_refl eq_refl ltac:(simpl; lia))
    as (field' & F & O & _).
  exists field'. exact (conj F O).
Defined.

(** The second option of the dropdown of [two_options] relabelled, run
    through [updateOption_changes_one_option]. *)
Lemma updateOption_changes_one_option_witness :
  exists field' opts',
    js_find "field_1700000000000"
            (fields (updateOption "field_1700000000000" 1
                       {| ou_value := Some "very_good"; ou_label := Some "Very good" |}
                       two_options))
    = Some (Some field') /\
    options field' = Some opts' /\
    opts' !! 0%nat = Some {| value := "option1"; o_label := "Option 1" |} /\
    opts' !! 1%nat = Some {| value := "very_good"; o_label := "Very good" |}.
Proof.
  assert (Hdef : all_defined two_options) by (repeat constructor; discriminate).
  destruct (updateOption_changes_one_option "field_1700000000000" 1
              {| ou_value := Some "very_good"; ou_label := Some "Very good" |}
              two_options _ _ Hdef eq_refl eq_refl)
    as (field' & opts' & F & O & _ & H1 & H0 & _).
  exists field', opts'.
  split; [exact F|]. split; [exact O|]. split.
  - now rewrite (H0 0%nat) by discriminate.
  - exact H1.
Defined.

(** ** Types and previews *)

Lemma js_map_Forall (P : Field -> Prop) (g : Field -> Field) arr arr' :
  (forall x, P x -> P (g x)) ->
  Forall (fun slot => match slot with Some f => P f | None => True end) arr ->
  js_map g arr = Some arr' ->
  Forall (fun slot => match slot with Some f => P f | None => True end) arr'.
Proof.
  intros Hg. revert arr'.
  induction arr as [|[x|] rest IH]; simpl; intros arr' Harr E.
  - injection E as <-. constructor.
  - destruct (js_map g rest) as [rest'|]; [|discriminate].
    injection E as <-. inversion Harr; subst. constructor; auto.
  - discriminate.
Qed.

Lemma js_filter_sublist (p : Field -> bool) arr arr' :
  js_filter p arr = Some arr' -> sublist arr' arr.
Proof.
  revert arr'. induction arr as [|[x|] rest IH]; simpl; intros arr' E.
  - injection E as <-. constructor.
  - destruct (js_filter p rest) as [rest'|]; [|discriminate].
    injection E as <-.
    destruct (p x); [apply sublist_skip | apply sublist_cons]; auto.
  - discriminate.
Qed.

Lemma updateField_typed fieldId updates st :
  fields_typed st -> fields_typed (updateField fieldId updates st).
Proof.
  intros Hst. unfold updateField.
  destruct (js_map _ (fields st)) as [newFields|] eqn:E; [|exact Hst].
  unfold fields_typed. simpl.
  refine (js_map_Forall (fun f => In (type f) palette_types) _ _ _ _ Hst E).
  intros x Hx. now destruct (String.eqb (id x) fieldId).
Qed.

Lemma step_typed st ev : fields_typed st -> fields_typed (step st ev).
Proof.
  intros Hst. destruct ev; simpl;
    repeat match goal with
           | |- fields_typed (match ?x with _ => _ end) => destruct x
           | |- fields_typed (if ?b then _ else _) => destruct b
           end;
    try exact Hst; try (now apply updateField_typed).
  - (* DragEnd *)
    unfold handleDragEnd.
    destruct (destination result) as [dest|]; [|exact Hst].
    destruct (_ && _).
    + destruct (FIELD_TYPES !! index (source result)) as [fieldType|] eqn:E;
        [|exact Hst].
      unfold fields_typed. simpl. apply splice_insert_ok; [|exact Hst].
      change (In (ft_type fieldType) (map ft_type FIELD_TYPES)).
      apply in_map. apply list_elem_of_In, list_elem_of_lookup. eauto.
    + destruct (_ && _); [|exact Hst].
      destruct (splice_remove _ (fields st)) as [newFields taken] eqn:E.
      destruct (splice_remove_ok slot_typed (index (source result)) (fields st) Hst)
        as [Hrest Htaken].
      rewrite E in Hrest, Htaken. simpl in Hrest, Htaken.
      unfold fields_typed. simpl. apply splice_insert_ok; [|exact Hrest].
      destruct taken as [x|]; simpl; [now apply Htaken | exact I].
  - (* ClickDelete *)
    unfold deleteField.
    destruct (js_filter _ (fields st)) as [newFields|] eqn:E; [|exact Hst].
    unfold fields_typed. simpl.
    unfold fields_typed in Hst. rewrite Forall_forall in Hst |- *.
    intros slot Hslot. apply Hst.
    eapply sublist_subseteq; [eapply js_filter_sublist, E | exact Hslot].
  - (* ChangeOptionLabel *)
    unfold updateOption.
    repeat match goal with
           | |- fields_typed (match ?x with _ => _ end) => destruct x
           end; try exact Hst; now apply updateField_typed.
  - (* ClickRemoveOption *)
    unfold removeOption.
    repeat match goal with
           | |- fields_typed (match ?x with _ => _ end) => destruct x
           | |- fields_typed (if ?b then _ else _) => destruct b
           end; try exact Hst; now apply updateField_typed.
  - (* ClickAddOption *)
    unfold addOption.
    repeat match goal with
           | |- fields_typed (match ?x with _ => _ end) => destruct x
           end; try exact Hst; now apply updateField_typed.
Qed.

Lemma run_typed evs : forall st, fields_typed st -> fields_typed (run st evs).
Proof.
  unfold run. induction evs as [|ev evs IH]; intros st Hst; simpl; [exact Hst|].
  apply IH, step_typed, Hst.
Qed.

(** X15. In a builder that started empty, whatever events followed, every
    field has one of the nine types of the palette, so its preview is a
    control and never the notice for an unknown type; and a preview that
    lists choices lists the options of the field, of which there is at
    least one. *)
Theorem every_field_has_a_preview (evs : list Event) (f : Field) :
  In (Some f) (fields (run initialState evs)) ->
  In (type f) palette_types /\
  renderField f <> UnknownFieldType /\
  forall listed, choices_of (renderField f) = Some listed ->
                 options f = Some listed /\ listed <> [].
Proof.
  intros Hin.
  assert (Ht : In (type f) palette_types).
  { pose proof (run_typed evs initialState ltac:(constructor)) as H.
    unfold fields_typed in H. rewrite List.Forall_forall in H.
    exact (H _ Hin). }
  assert (Hok : field_ok f).
  { pose proof (run_ok evs initialState ltac:(constructor)) as H.
    unfold fields_ok in H. rewrite List.Forall_forall in H.
    exact (H _ Hin). }
  split; [exact Ht|].
  destruct Hok as [Hhas Hne]. unfold renderField.
  assert (Hlist : has_options (type f) = true ->
                  forall listed, Some (default [] (options f)) = Some listed ->
                                 options f = Some listed /\ listed <> []).
  { intros H listed E. specialize (Hhas H).
    destruct (options f) as [l|]; [|congruence].
    simpl in E. injection E as <-. split; [reflexivity | congruence]. }
  simpl in Ht.
  repeat (destruct Ht as [E | Ht];
          [rewrite <- E in *; simpl; split; [discriminate|];
           first [ exact (Hlist eq_refl)
                 | intros listed E'; discriminate E' ]|]).
  contradiction.
Qed.

(** The dropdown of [session], run through [every_field_has_a_preview]. *)
Lemma every_field_has_a_preview_witness :
  forallb (fun slot => match slot with
                       | Some f => match renderField f with
                                   | Dropdown (_ :: _) => true
                                   | _ => false
                                   end
                       | None => false
                       end) (fields (run initialState session)) = true /\
  Forall (fun slot => match slot with
                      | Some f => renderField f <> UnknownFieldType
                      | None => True
                      end) (fields (run initialState session)).
Proof.
  split; [reflexivity|].
  apply List.Forall_forall. intros [f|] Hin; [|exact I].
  exact (proj1 (proj2 (every_field_has_a_preview session f Hin))).
Defined.

(** ** Field ids *)

Lemma number_to_string_inj a b :
  number_to_string a = number_to_string b -> a = b.
Proof.
  unfold number_to_string. intros E.
  apply (f_equal NilEmpty.int_of_string) in E.
  rewrite !NilEmpty.isi in E. injection E as E.
  apply (f_equal Z.of_int) in E. now rewrite !DecimalZ.of_to in E.
Qed.

Lemma id_at_inj a b : id_at a = id_at b -> a = b.
Proof.
  unfold id_at. intros E. apply number_to_string_inj.
  simpl in E. now injection E.
Qed.

Lemma js_map_ids (g : Field -> Field) arr arr' :
  (forall x, id (g x) = id x) ->
  js_map g arr = Some arr' ->
  omap (fun slot => id <$> slot) arr' = omap (fun slot => id <$> slot) arr.
Proof.
  intros Hg. revert arr'.
  induction arr as [|[x|] rest IH]; simpl; intros arr' E.
  - now injection E as <-.
  - destruct (js_map g rest) as [rest'|]; [|discriminate].
    injection E as <-. simpl. rewrite Hg. f_equal. now apply IH.
  - discriminate.
Qed.

Lemma updateField_ids fieldId updates st :
  field_ids (updateField fieldId updates st) = field_ids st.
Proof.
  unfold updateField.
  destruct (js_map _ (fields st)) as [newFields|] eqn:E; [|reflexivity].
  unfold field_ids. simpl. eapply js_map_ids; [|exact E].
  intros x. cbv beta. now destruct (String.eqb (id x) fieldId).
Qed.

Lemma omap_keeps_sublist {A B} (f : A -> option B) (l1 l2 : list A) :
  sublist l1 l2 -> sublist (omap f l1) (omap f l2).
Proof.
  induction 1 as [|x l1 l2 _ IH|x l1 l2 _ IH]; simpl.
  - constructor.
  - destruct (f x); [now apply sublist_skip | exact IH].
  - destruct (f x); [now apply sublist_cons | exact IH].
Qed.

Lemma deleteField_ids fieldId st :
  field_ids (deleteField fieldId st) ⊆+ field_ids st.
Proof.
  unfold deleteField.
  destruct (js_filter _ (fields st)) as [newFields|] eqn:E; [|reflexivity].
  unfold field_ids. simpl. apply sublist_submseteq.
  apply omap_keeps_sublist. eapply js_filter_sublist, E.
Qed.

Lemma handleDragEnd_ids now result st :
  field_ids (handleDragEnd now result st)
  ⊆+ ((id_at <$> option_list (drop_time (DragEnd now result))) ++ field_ids st)%list.
Proof.
  unfold handleDragEnd, field_ids. simpl.
  destruct (destination result) as [dest|]; [|apply submseteq_inserts_l; reflexivity].
  destruct (String.eqb_spec (droppableId (source result)) "field-types") as [Hs|Hs];
    simpl.
  - rewrite Hs. simpl.
    destruct (String.eqb (droppableId dest) "survey-fields");
      [|now apply submseteq_cons].
    destruct (FIELD_TYPES !! index (source result)) as [fieldType|];
      [|now apply submseteq_cons].
    simpl. apply Permutation_submseteq.
    now rewrite splice_insert_perm.
  - destruct (_ && _); [|reflexivity].
    unfold splice_remove, set_fields. cbn [fields].
    apply Permutation_submseteq. rewrite splice_insert_perm.
    destruct (fields st !! index (source result)) as [x|] eqn:Hx.
    + change (default None (Some x)) with x.
      apply omap_Permutation.
      etrans; [apply Permutation_middle|].
      now rewrite (take_drop_middle _ _ _ Hx).
    + apply lookup_ge_None in Hx.
      rewrite take_ge, drop_ge by lia. now rewrite app_nil_r.
Qed.

Lemma step_ids st ev :
  field_ids (step st ev)
  ⊆+ ((id_at <$> option_list (drop_time ev)) ++ field_ids st)%list.
Proof.
  destruct ev; try apply handleDragEnd_ids; simpl;
    unfold addOption, updateOption, removeOption;
    repeat match goal with
           | |- field_ids (match ?x with _ => _ end) ⊆+ _ => destruct x
           | |- field_ids (if ?b then _ else _) ⊆+ _ => destruct b
           end;
    rewrite ?updateField_ids; try reflexivity.
  apply deleteField_ids.
Qed.

Lemma run_ids evs : forall st,
  field_ids (run st evs) ⊆+ ((id_at <$> drop_times evs) ++ field_ids st)%list.
Proof.
  unfold run, drop_times.
  induction evs as [|ev evs IH]; intros st; simpl; [reflexivity|].
  etrans; [apply IH|].
  etrans; [apply submseteq_skips_l, step_ids|].
  apply Permutation_submseteq.
  destruct (drop_time ev) as [now|]; simpl; [|reflexivity].
  now rewrite <- Permutation_middle.
Qed.

(** X16. Ids are taken from the clock (line 29) and nothing checks them:
    they are pairwise distinct in a builder that started empty as long as
    no two drops from the palette happened at the same clock reading, and
    two drops at one reading do give two fields the same id. *)
Theorem field_ids_distinct_when_clock_is (evs : list Event) :
  (NoDup (drop_times evs) -> NoDup (field_ids (run initialState evs))) /\
  (forall now i j i' j' fieldType fieldType',
     FIELD_TYPES !! i = Some fieldType ->
     FIELD_TYPES !! i' = Some fieldType' ->
     field_ids (run initialState [ DragEnd now (palette_drop i j);
                                   DragEnd now (palette_drop i' j') ])
     ≡ₚ [id_at now; id_at now]).
Proof.
  split.
  - intros Hnd.
    pose proof (run_ids evs initialState) as H.
    change (field_ids initialState) with (@nil string) in H.
    rewrite app_nil_r in H.
    apply submseteq_sublist_r in H as (k & Hperm & Hk).
    rewrite Hperm. refine (sublist_NoDup _ _ _ Hk).
    apply (NoDup_fmap_2_strong id_at); [|exact Hnd].
    intros a b _ _. apply id_at_inj.
  - intros now i j i' j' fieldType fieldType' Hi Hi'.
    unfold run, field_ids. simpl.
    unfold handleDragEnd at 2. simpl. rewrite Hi. simpl.
    unfold handleDragEnd. simpl. rewrite Hi'. simpl.
    rewrite splice_insert_perm. simpl.
    now rewrite splice_insert_perm.
Qed.

(** The drops of [session] and two more at later readings, run through
    [field_ids_distinct_when_clock_is]. *)
Lemma field_ids_distinct_when_clock_is_witness :
  NoDup (field_ids (run initialState
           (session ++ [ DragEnd 1700000000001 (palette_drop 0 0);
                         DragEnd 1700000000002 (palette_drop 8 1) ])%list)).
Proof.
  apply (proj1 (field_ids_distinct_when_clock_is _)).
  change (NoDup [1700000000000; 1700000000001; 1700000000002]).
  repeat (apply NoDup_cons_2; [rewrite ?elem_of_cons, elem_of_nil; lia|]).
  apply NoDup_nil_2.
Defined.

(** ** The stale snapshot of the properties panel *)

Lemma updateField_all_defined fieldId updates st :
  all_defined st -> all_defined (updateField fieldId updates st).
Proof.
  intros Hdef. destruct (all_defined_fields st Hdef) as [fs Hfs].
  rewrite (updateField_defined _ _ _ _ Hfs).
  unfold all_defined. simpl. apply Forall_fmap, Forall_true. discriminate.
Qed.

Lemma updateField_selected fieldId updates st :
  selectedField (updateField fieldId updates st) = selectedField st.
Proof. unfold updateField. now destruct (js_map _ (fields st)). Qed.

(** X17. The panel builds each validation update from the snapshot taken
    when the card was clicked (lines 348-385), and no update refreshes the
    snapshot.  So of two changes made without clicking the card again only
    the later one lasts: after a minimum and then a maximum are entered
    for a number field, the field holds the maximum entered and the
    minimum of the snapshot, not the minimum entered. *)
Theorem later_validation_change_drops_earlier
        (st : State) (sel field : Field) (entered_min entered_max : option Q) :
  all_defined st ->
  selectedField st = Some sel ->
  type sel = "number" ->
  js_find (id sel) (fields st) = Some (Some field) ->
  let st' := run st [ChangeMin entered_min; ChangeMax entered_max] in
  exists field',
    js_find (id sel) (fields st') = Some (Some field') /\
    validation field'
    = {| maxLength := maxLength (validation sel);
         v_min := v_min (validation sel);
         v_max := entered_max |} /\
    selectedField st' = Some sel.
Proof.
  intros Hdef Hsel Htype F. cbv zeta. unfold run. simpl.
  rewrite Hsel, Htype. simpl.
  rewrite updateField_selected, Hsel, Htype. simpl.
  rewrite (updateField_found _ _ _ _
             (updateField_all_defined _ _ _ Hdef)
             (updateField_found _ _ _ _ Hdef F)).
  eexists. split; [reflexivity|]. split; [reflexivity|].
  now rewrite !updateField_selected.
Qed.

(** A number field in which a minimum of 1 and then a maximum of 10 are
    entered, run through [later_validation_change_drops_earlier]: the
    minimum is gone. *)
Lemma later_validation_change_drops_earlier_witness :
  let st := run initialState [DragEnd 7 (palette_drop 2 0); ClickCard 0] in
  exists field',
    js_find "field_7" (fields (run st [ChangeMin (Some 1%Q); ChangeMax (Some 10%Q)]))
    = Some (Some field') /\
    validation field'
    = {| maxLength := None; v_min := None; v_max := Some 10%Q |}.
Proof.
  cbv zeta.
  assert (Hdef : all_defined
                   (run initialState [DragEnd 7 (palette_drop 2 0); ClickCard 0]))
    by (repeat constructor; discriminate).
  destruct (later_validation_change_drops_earlier _ _ _ (Some 1%Q) (Some 10%Q)
              Hdef eq_refl eq_refl eq_refl)
    as (field' & F & V & _).
  exists field'. exact (conj F V).
Defined.

(** ** Option values *)

(** X18. [addOption] names the new option after the number of options
    (line 74) and does not look at the values in use.  When the field
    found already has an option of that value, as after the first of two
    options was removed, the field ends with two options of the same
    value. *)
Theorem addOption_can_repeat_a_value
        (fieldId : string) (st : State) (field : Field)
        (opts : list FieldOption) :
  all_defined st ->
  js_find fieldId (fields st) = Some (Some field) ->
  options field = Some opts ->
  In ("option" ++ number_to_string (Z.of_nat (length opts) + 1))
     (value <$> opts) ->
  exists field' opts',
    js_find fieldId (fields (addOption fieldId st)) = Some (Some field') /\
    options field' = Some opts' /\
    length opts' = S (length opts) /\
    ~ NoDup (value <$> opts').
Proof.
  intros Hdef F O Hin. unfold addOption. rewrite F, O.
  rewrite (updateField_found _ _ _ _ Hdef F).
  eexists _, _. split; [reflexivity|]. simpl. split; [reflexivity|].
  split; [rewrite length_app; simpl; lia|].
  rewrite fmap_app. simpl. intros Hnd.
  apply NoDup_app in Hnd as (_ & Hdisj & _).
  apply list_elem_of_In in Hin.
  apply (Hdisj _ Hin). constructor.
Qed.

(** The dropdown of [session] after its first option was removed, given
    an option again, run through [addOption_can_repeat_a_value]. *)
Lemma addOption_can_repeat_a_value_witness :
  let st := run initialState (take 5 session) in
  exists field' opts',
    js_find "field_1700000000000" (fields (step st ClickAddOption))
    = Some (Some field') /\
    options field' = Some opts' /\
    value <$> opts' = ["option2"; "option2"].
Proof.
  cbv zeta.
  assert (Hdef : all_defined (run initialState (take 5 session)))
    by (repeat constructor; discriminate).
  destruct (addOption_can_repeat_a_value "field_1700000000000" _ _ _
              Hdef eq_refl eq_refl (or_introl eq_refl))
    as (field' & opts' & F & O & _).
  exists field', opts'. split; [exact F|]. split; [exact O|].
  assert (E : Some (Some field') = Some (Some field')) by reflexivity.
  rewrite <- F in E at 1. vm_compute in E. injection E as <-.
  vm_compute in O. injection O as <-. reflexivity.
Defined.

Lemma lower_char_twice c : lower_char (lower_char c) = lower_char c.
Proof. destruct c as [[] [] [] [] [] [] [] []]; reflexivity. Qed.

Lemma toLowerCase_twice s : toLowerCase (toLowerCase s) = toLowerCase s.
Proof.
  induction s as [|c t IH]; simpl; [reflexivity|].
  now rewrite lower_char_twice, IH.
Qed.

Lemma toLowerCase_replace_white in_run s :
  toLowerCase (replace_white in_run s) = replace_white in_run (toLowerCase s).
Proof.
  revert in_run. induction s as [|c t IH]; intros in_run; simpl; [reflexivity|].
  rewrite QueryProofs.is_white_lower_char.
  destruct (is_white c); [destruct in_run|]; simpl; now rewrite IH.
Qed.

Lemma replace_white_visible in_run s c :
  In c (list_ascii_of_string (replace_white in_run s)) -> is_white c = false.
Proof.
  revert in_run. induction s as [|a t IH]; intros in_run; simpl; [tauto|].
  destruct (is_white a) eqn:Ha.
  - destruct in_run; simpl; [apply IH|].
    intros [<- | H]; [reflexivity | eapply IH, H].
  - simpl. intros [<- | H]; [exact Ha | eapply IH, H].
Qed.

Lemma replace_white_blank s :
  blank s = true -> replace_white true s = EmptyString.
Proof.
  induction s as [|a t IH]; simpl; [reflexivity|].
  intros H. apply andb_true_iff in H as [-> Ht]. auto.
Qed.

(** X19. The value the panel derives from the text typed for an option
    (line 320) contains no white space and no capital letter: lower-casing
    it again changes nothing.  A text of white space only, if not empty,
    gives the value of one underscore, and the empty text the empty
    value. *)
Theorem option_value_is_a_slug (text : string) :
  let v := replace_white false (toLowerCase text) in
  (forall c, In c (list_ascii_of_string v) -> is_white c = false) /\
  toLowerCase v = v /\
  (blank text = true -> v = if falsy text then "" else "_").
Proof.
  cbv zeta. split; [|split].
  - intros c. apply replace_white_visible.
  - now rewrite toLowerCase_replace_white, toLowerCase_twice.
  - intros Hb. destruct text as [|a t]; [reflexivity|].
    simpl in *. apply andb_true_iff in Hb as [Ha Ht].
    rewrite QueryProofs.is_white_lower_char, Ha.
    rewrite replace_white_blank; [reflexivity|].
    now rewrite QueryProofs.blank_toLowerCase.
Qed.

(** ** Deleting, again *)


(** The label of the dropdown of [two_options] changed, run through
    [updateField_touches_only_its_id]: the ids are as before. *)
Lemma updateField_touches_only_its_id_witness :
  field_ids (updateField "field_1700000000000" (with_label "Colour") two_options)
  = ["field_1700000000000"].
Proof.
  assert (Hdef : all_defined two_options) by (repeat constructor; discriminate).
  exact (proj1 (proj2 (proj2
           (proj1 (updateField_touches_only_its_id "field_1700000000000"
                     (with_label "Colour") two_options) Hdef)))).
Defined.

End BuilderExtras.
